(** * Card-scan: field extraction engine and session hand-off

    A shallow embedding of [server.js]: the OCR text normalizer, the Luhn
    check, the card number, expiry and cardholder name extractors, the
    network detector, the number mask and the scan / poll handlers over
    the in-memory session map.

    Conventions of the embedding.
    - A JavaScript string is a [list ascii].  The development is about
      ASCII text: [toUpperCase] folds [a-z] to [A-Z], white space ([\s],
      [trim]) is the ASCII white space, and bytes above 127 are carried
      along unchanged (they only occur in the mask glyph, held as its
      UTF-8 bytes).  A property that depends on which characters
      upper-casing produces is stated of ASCII text ([asciiText]).
    - A regular expression is written with backtracking matcher
      combinators in continuation-passing style, one combinator per
      regex construct, so that each pattern reads like its source.
    - Numbers are [Z]; [NaN] and the infinities are [None] of an option.
    - The session [Map] is a [gmap] from session ids to sessions, and a
      request handler is a function from the store and the request to a
      response and the new store. *)

From Stdlib Require Import ZArith List Ascii String Bool Lia.
From stdpp Require Import gmap strings.
Import ListNotations.

Local Open Scope list_scope.
Local Open Scope Z_scope.

(** ** Characters and strings *)

Definition str := list ascii.

Definition lit (s : string) : str := list_ascii_of_string s.

Definition code (c : ascii) : N := N_of_ascii c.

Definition inRange (lo hi c : ascii) : bool :=
  ((code lo <=? code c) && (code c <=? code hi))%N.

Definition isChar (a c : ascii) : bool := Ascii.eqb a c.

(** [[abc]]: membership in a character class given by its members. *)
Definition oneOf (cls : string) (c : ascii) : bool :=
  existsb (Ascii.eqb c) (lit cls).

(** [\d] *)
Definition isDigit (c : ascii) : bool := inRange "0" "9" c.

(** [\s], and the characters removed by [trim] *)
Definition isSpace (c : ascii) : bool :=
  ((code c =? 9) || (code c =? 10) || (code c =? 11) || (code c =? 12)
   || (code c =? 13) || (code c =? 32))%N.

Definition isUpperAZ (c : ascii) : bool := inRange "A" "Z" c.
Definition isLowerAZ (c : ascii) : bool := inRange "a" "z" c.

(** [\w] *)
Definition isWord (c : ascii) : bool :=
  isUpperAZ c || isLowerAZ c || isDigit c || isChar "_" c.

(** [toUpperCase] on ASCII text: [a-z] becomes [A-Z] and nothing else
    changes. *)
Definition upperChar (c : ascii) : ascii :=
  if isLowerAZ c then ascii_of_N (code c - 32) else c.

Definition toUpperCase (s : str) : str := map upperChar s.

(** [s.replace(/[cls]/g, r)] for a one-character replacement. *)
Definition replaceClass (P : ascii -> bool) (r : ascii) (s : str) : str :=
  map (fun c => if P c then r else c) s.

(** [s.replace(/[cls]/g, '')] *)
Definition removeClass (P : ascii -> bool) (s : str) : str :=
  List.filter (fun c => negb (P c)) s.

(** [s.replace(/\D/g, '')] *)
Definition digitsOnly (s : str) : str := removeClass (fun c => negb (isDigit c)) s.

Fixpoint trimStart (s : str) : str :=
  match s with
  | c :: s' => if isSpace c then trimStart s' else s
  | [] => []
  end.

Definition trim (s : str) : str := rev (trimStart (rev (trimStart s))).

(** [s.slice(start, stop)] for [0 <= start <= stop]. *)
Definition slice (start stop : nat) (s : str) : str :=
  firstn (stop - start) (skipn start s).

(** [s.slice(-n)] *)
Definition sliceLast (n : nat) (s : str) : str :=
  skipn (length s - n) s.

(** [words.join(sep)] *)
Fixpoint join (sep : str) (ws : list str) : str :=
  match ws with
  | [] => []
  | [w] => w
  | w :: ws' => w ++ sep ++ join sep ws'
  end.

(** [s.split(sep)] at a one-character separator, through the piece being
    read. *)
Fixpoint splitAcc (sep : ascii) (cur : str) (s : str) : list str :=
  match s with
  | [] => [rev cur]
  | c :: s' =>
      if Ascii.eqb c sep then rev cur :: splitAcc sep [] s'
      else splitAcc sep (c :: cur) s'
  end.

Definition split (sep : ascii) (s : str) : list str := splitAcc sep [] s.

(** [s.split(/\r?\n/)] *)
Fixpoint splitLinesAcc (cur : str) (s : str) : list str :=
  match s with
  | [] => [rev cur]
  | c :: s' =>
      if isChar "010" c then rev cur :: splitLinesAcc [] s'
      else
        match s' with
        | c' :: s'' =>
            if isChar "013" c && isChar "010" c' then rev cur :: splitLinesAcc [] s''
            else splitLinesAcc (c :: cur) s'
        | [] => splitLinesAcc (c :: cur) s'
        end
  end.

Definition isEmpty' {A : Type} (l : list A) : bool :=
  match l with [] => true | _ => false end.

(** [!s] for a string *)
Definition isEmpty (s : str) : bool := isEmpty' s.

(** [text.toUpperCase().split(/\r?\n/).map(line => line.trim()).filter(Boolean)] *)
Definition upperLines (rawText : str) : list str :=
  List.filter (fun l => negb (isEmpty l))
    (map trim (splitLinesAcc [] (toUpperCase rawText))).

(** ** Regular expressions

    A matcher continuation receives the character before the current
    position (for [\b]) and the rest of the input, and answers with the
    number of characters matched from there on and the captured groups. *)

Definition mres := option (nat * list str).
Definition cont := option ascii -> str -> mres.
Definition pattern := cont -> cont.

Definition accept : cont := fun _ _ => Some (0%nat, []).

Definition bump (r : mres) : mres :=
  match r with
  | Some (n, caps) => Some (S n, caps)
  | None => None
  end.

(** one character of a class *)
Definition chr (P : ascii -> bool) : pattern := fun k _ s =>
  match s with
  | c :: s' => if P c then bump (k (Some c) s') else None
  | [] => None
  end.

(** a literal word *)
Fixpoint word (w : str) : pattern :=
  match w with
  | [] => fun k => k
  | c :: w' => fun k => chr (isChar c) (word w' k)
  end.

Definition kw (w : string) : pattern := word (lit w).

(** [p q] *)
Definition andThen (p q : pattern) : pattern := fun k => p (q k).

(** [p|q] *)
Definition alt (p q : pattern) : pattern := fun k prev s =>
  match p k prev s with
  | Some r => Some r
  | None => q k prev s
  end.

(** [p?] *)
Definition opt (p : pattern) : pattern := alt p (fun k => k).

(** [[cls]*], greedy *)
Fixpoint starFrom (P : ascii -> bool) (k : cont) (prev : option ascii) (s : str) : mres :=
  match s with
  | c :: s' =>
      if P c then
        match bump (starFrom P k (Some c) s') with
        | Some r => Some r
        | None => k prev s
        end
      else k prev s
  | [] => k prev s
  end.

Definition star (P : ascii -> bool) : pattern := starFrom P.

(** [p{lo,hi}], greedy, for a body that consumes input *)
Fixpoint rep (lo hi : nat) (p : pattern) : pattern :=
  match hi with
  | O => fun k => k
  | S hi' => fun k prev s =>
      match p (rep (pred lo) hi' p k) prev s with
      | Some r => Some r
      | None => if (lo =? 0)%nat then k prev s else None
      end
  end.

(** [(p)], a capturing group *)
Definition cap (p : pattern) : pattern := fun k prev s =>
  p (fun prev' s' =>
       match k prev' s' with
       | Some (n, caps) => Some (n, firstn (length s - length s') s :: caps)
       | None => None
       end) prev s.

Definition isWordAt (o : option ascii) : bool :=
  match o with Some c => isWord c | None => false end.

(** [\b] *)
Definition wordBoundary : pattern := fun k prev s =>
  if xorb (isWordAt prev) (isWordAt (hd_error s)) then k prev s else None.

(** [$] *)
Definition eos : pattern := fun k prev s =>
  match s with [] => k prev s | _ => None end.

Declare Scope re_scope.
Delimit Scope re_scope with re.
Notation "p >> q" := (andThen p q) (at level 60, right associativity) : re_scope.
Notation "p <|> q" := (alt p q) (at level 66, right associativity) : re_scope.

(** A match attempt at the current position. *)
Definition matchAt (p : pattern) (prev : option ascii) (s : str) : mres :=
  p accept prev s.

(** [/^p/.test(s)] *)
Definition testAtStart (p : pattern) (s : str) : bool :=
  match matchAt p None s with Some _ => true | None => false end.

(** One match of the global iteration: its index, text and groups. *)
Record rmatch := { m_index : nat; m_text : str; m_groups : list str }.

(** The successive matches of a global regex ([exec] in a loop, or
    [match] with the [g] flag): after a match the search resumes behind
    it, and behind an empty match one character further. *)
Fixpoint execFrom (p : pattern) (skip : nat) (prev : option ascii) (pos : nat)
    (s : str) {struct s} : list rmatch :=
  match skip with
  | S k =>
      match s with
      | c :: s' => execFrom p k (Some c) (S pos) s'
      | [] => []
      end
  | O =>
      match matchAt p prev s with
      | Some (n, caps) =>
          {| m_index := pos; m_text := firstn n s; m_groups := caps |} ::
          match s with
          | c :: s' => execFrom p (pred n) (Some c) (S pos) s'
          | [] => []
          end
      | None =>
          match s with
          | c :: s' => execFrom p 0 (Some c) (S pos) s'
          | [] => []
          end
      end
  end.

Definition execAll (p : pattern) (s : str) : list rmatch := execFrom p 0 None 0 s.

(** [re.test(s)] for a regex without the [g] flag *)
Definition test (p : pattern) (s : str) : bool :=
  negb (isEmpty' (execAll p s)).

(** ** The normalizer *)

Definition normalizeDigitLikeText (text : str) : str :=
  replaceClass (oneOf "G") "6"
    (replaceClass (oneOf "Z") "2"
      (replaceClass (oneOf "B") "8"
        (replaceClass (oneOf "S") "5"
          (replaceClass (oneOf "IL|") "1"
            (replaceClass (oneOf "OQD") "0"
              (toUpperCase text)))))).

(** ** The Luhn check *)

(** [Number(c)] for a one-character string: a digit is its value, white
    space is 0 and anything else is [NaN]. *)
Definition NumberOfChar (c : ascii) : option Z :=
  if isDigit c then Some (Z.of_N (code c) - 48)
  else if isSpace c then Some 0
  else None.

Record luhnState := { sum : option Z; shouldDouble : bool }.

(** One turn of the loop body, at the character [cardNumber[index]]. *)
Definition luhnStep (st : luhnState) (c : ascii) : luhnState :=
  let digit := NumberOfChar c in
  let digit :=
    if shouldDouble st then
      let digit := option_map (fun d => d * 2) digit in
      option_map (fun d => if 9 <? d then d - 9 else d) digit
    else digit in
  {| sum := match sum st, digit with
            | Some s, Some d => Some (s + d)
            | _, _ => None
            end;
     shouldDouble := negb (shouldDouble st) |}.

(** The loop runs over the indices from [length - 1] down to 0. *)
Definition luhnCheck (cardNumber : str) : bool :=
  let st := fold_left luhnStep (rev cardNumber)
              {| sum := Some 0; shouldDouble := false |} in
  match sum st with
  | Some s => Z.rem s 10 =? 0
  | None => false
  end.

(** ** The network detector *)

Inductive CardType := VISA | MASTERCARD | RUPAY | AMEX | DISCOVER | UNKNOWN.

Local Open Scope re_scope.

(** [/^4/] *)
Definition visaRegex : pattern := kw "4".

(** [/^(5[1-5]|2(2[2-9]|[3-6]\d|7[01]|720))/] *)
Definition mastercardRegex : pattern :=
  (kw "5" >> chr (inRange "1" "5"))
  <|> (kw "2" >> ((kw "2" >> chr (inRange "2" "9"))
                  <|> (chr (inRange "3" "6") >> chr isDigit)
                  <|> (kw "7" >> chr (oneOf "01"))
                  <|> kw "720")).

(** [/^(60|65|81|82|508)/] *)
Definition rupayRegex : pattern :=
  kw "60" <|> kw "65" <|> kw "81" <|> kw "82" <|> kw "508".

(** [/^3[47]/] *)
Definition amexRegex : pattern := kw "3" >> chr (oneOf "47").

(** [/^6(?:011|5)/] *)
Definition discoverRegex : pattern := kw "6" >> (kw "011" <|> kw "5").

Definition detectCardType (cardNumber : str) : CardType :=
  let bin := digitsOnly cardNumber in
  if testAtStart visaRegex bin then VISA
  else if testAtStart mastercardRegex bin then MASTERCARD
  else if testAtStart rupayRegex bin then RUPAY
  else if testAtStart amexRegex bin then AMEX
  else if testAtStart discoverRegex bin then DISCOVER
  else UNKNOWN.

(** ** The card number extractor *)

Definition MAX_CARD_DIGITS : nat := 16.

(** [\d[ -]?], the body of the group regex *)
Definition digitUnit : pattern := chr isDigit >> opt (chr (oneOf " -")).

(** [/(?:\d[ -]?){13,16}/g] *)
Definition cardGroupRegex : pattern := rep 13 16 digitUnit.

(** The first element of a list that a test accepts, mapped through
    [f]: a [for] loop that returns from inside. *)
Fixpoint firstSome {A B : Type} (f : A -> option B) (l : list A) : option B :=
  match l with
  | [] => None
  | x :: l' => match f x with Some y => Some y | None => firstSome f l' end
  end.

(** The candidate groups, in scan order. *)
Definition candidateGroups (compactText : str) : list str :=
  map m_text (execAll cardGroupRegex compactText).

Definition groupDigits (group : str) : option str :=
  let digits := digitsOnly group in
  if (13 <=? length digits)%nat && (length digits <=? MAX_CARD_DIGITS)%nat
     && luhnCheck digits
  then Some digits else None.

(** The window lengths tried at one start offset: from [maxLength] down
    to 13. *)
Definition windowLengths (maxLength : nat) : list nat :=
  rev (seq 13 (maxLength - 12)).

Definition windowAt (allDigits : str) (start : nat) : option str :=
  let maxLength := Nat.min MAX_CARD_DIGITS (length allDigits - start) in
  firstSome (fun len =>
               let candidate := slice start (start + len) allDigits in
               if luhnCheck candidate then Some candidate else None)
            (windowLengths maxLength).

(** The start offsets [0 .. allDigits.length - 13]. *)
Definition windowStarts (allDigits : str) : list nat :=
  seq 0 (length allDigits - 12).

Definition extractCardNumber (rawText : str) : str :=
  let compactText := normalizeDigitLikeText rawText in
  match firstSome groupDigits (candidateGroups compactText) with
  | Some digits => digits
  | None =>
      let allDigits := digitsOnly compactText in
      match firstSome (windowAt allDigits) (windowStarts allDigits) with
      | Some candidate => candidate
      | None => []
      end
  end.

(** ** The expiry extractor *)

(** [/([0O][1-9]|1[0-2])\s*[-\/]\s*([0-9OQDIL|SBZG]{2,4})/g] *)
Definition dateRegex : pattern :=
  cap ((chr (oneOf "0O") >> chr (inRange "1" "9"))
       <|> (kw "1" >> chr (inRange "0" "2")))
  >> star isSpace >> chr (oneOf "-/") >> star isSpace
  >> cap (rep 2 4 (chr (oneOf "0123456789OQDIL|SBZG"))).

(** [/(VALID\s*THRU|VALIDTHRU|THRU|THROUGH|\bEXP\b|EXPIRY|EXPIRES?|MM\s*\/?\s*YY|MONTH\s*\/?\s*YEAR)/] *)
Definition thruKeywordRegex : pattern :=
  (kw "VALID" >> star isSpace >> kw "THRU")
  <|> kw "VALIDTHRU"
  <|> kw "THRU"
  <|> kw "THROUGH"
  <|> (wordBoundary >> kw "EXP" >> wordBoundary)
  <|> kw "EXPIRY"
  <|> (kw "EXPIRE" >> opt (kw "S"))
  <|> (kw "MM" >> star isSpace >> opt (kw "/") >> star isSpace >> kw "YY")
  <|> (kw "MONTH" >> star isSpace >> opt (kw "/") >> star isSpace >> kw "YEAR").

(** [/(VALID\s*FROM|VALIDFROM|\bFROM\b|ISSUED?|SINCE|START)/] *)
Definition fromKeywordRegex : pattern :=
  (kw "VALID" >> star isSpace >> kw "FROM")
  <|> kw "VALIDFROM"
  <|> (wordBoundary >> kw "FROM" >> wordBoundary)
  <|> (kw "ISSUE" >> opt (kw "D"))
  <|> kw "SINCE"
  <|> kw "START".

Definition normalizeDateDigits (value : str) : str :=
  replaceClass (oneOf "G") "6"
    (replaceClass (oneOf "Z") "2"
      (replaceClass (oneOf "B") "8"
        (replaceClass (oneOf "S") "5"
          (replaceClass (oneOf "IL|") "1"
            (replaceClass (oneOf "OQD") "0" value))))).

(** [/^(0[1-9]|1[0-2])$/] *)
Definition monthRegex : pattern :=
  ((kw "0" >> chr (inRange "1" "9")) <|> (kw "1" >> chr (inRange "0" "2")))
  >> eos.

(** [/^\d{2,4}$/] *)
Definition yearRegex : pattern := rep 2 4 (chr isDigit) >> eos.

Definition toExpiry (monthRaw yearRaw : str) : str :=
  let month := normalizeDateDigits monthRaw in
  let yearClean := normalizeDateDigits yearRaw in
  if negb (testAtStart monthRegex month) then []
  else if negb (testAtStart yearRegex yearClean) then []
  else
    let year := if (length yearClean =? 4)%nat then sliceLast 2 yearClean
                else yearClean in
    month ++ lit "/" ++ year.

Record dateMatch := { dm_expiry : str; dm_index : nat }.

(** [match[1]] and [match[2]] *)
Definition group (i : nat) (m : rmatch) : str := nth i (m_groups m) [].

Definition collectDateMatches (line : str) : list dateMatch :=
  flat_map (fun m =>
              let expiry := toExpiry (group 0 m) (group 1 m) in
              if isEmpty expiry then []
              else [{| dm_expiry := expiry; dm_index := m_index m |}])
           (execAll dateRegex line).

Definition getPositions (line : str) (regex : pattern) : list nat :=
  map m_index (execAll regex line).

Definition absDiff (a b : nat) : nat := Nat.max (a - b) (b - a).

(** [Math.min(...xs)] of a non-empty list *)
Definition minimum (xs : list nat) : nat :=
  match xs with
  | [] => 0%nat
  | x :: xs' => fold_left Nat.min xs' x
  end.

(** [None] is [Number.POSITIVE_INFINITY]. *)
Definition nearestDistance (target : nat) (positions : list nat) : option nat :=
  match positions with
  | [] => None
  | _ => Some (minimum (map (fun position => absDiff target position) positions))
  end.

(** [Number(s)] for a string of decimal digits, which the two parts of an
    expiry value are. *)
Definition NumberOfDigits (s : str) : Z :=
  fold_left (fun acc c => acc * 10 + (Z.of_N (code c) - 48)) s 0.

Definition expiryMonth (e : str) : Z := NumberOfDigits (nth 0 (split "/" e) []).
Definition expiryYear (e : str) : Z := NumberOfDigits (nth 1 (split "/" e) []).

Record candidate := { expiry : str; score : Z; lineIndex : nat; position : nat }.

Definition compareExpiry (a b : candidate) : Z :=
  let aMonth := expiryMonth (expiry a) in
  let aYear := expiryYear (expiry a) in
  let bMonth := expiryMonth (expiry b) in
  let bYear := expiryYear (expiry b) in
  if negb (aYear =? bYear) then bYear - aYear
  else bMonth - aMonth.

Definition compareScore (a b : candidate) : Z :=
  if negb (score b =? score a) then score b - score a
  else if negb (lineIndex b =? lineIndex a)%nat
       then Z.of_nat (lineIndex b) - Z.of_nat (lineIndex a)
  else Z.of_nat (position b) - Z.of_nat (position a).

(** [Array.prototype.sort] is a stable sort: an element stays before the
    later elements it does not compare greater than. *)
Fixpoint insertSorted {A : Type} (cmp : A -> A -> Z) (x : A) (l : list A) : list A :=
  match l with
  | [] => [x]
  | y :: l' => if cmp x y <=? 0 then x :: l else y :: insertSorted cmp x l'
  end.

Fixpoint sort {A : Type} (cmp : A -> A -> Z) (l : list A) : list A :=
  match l with
  | [] => []
  | x :: l' => insertSorted cmp x (sort cmp l')
  end.

(** The expiry of the last element of a non-empty list of matches. *)
Definition lastExpiry (dates : list dateMatch) : str :=
  match rev dates with
  | d :: _ => dm_expiry d
  | [] => []
  end.

(** One turn of the first loop: the paired FROM/THRU line. *)
Definition pairedLine (lines : list str) (index : nat) : option str :=
  let line := nth index lines [] in
  let sameLineDates := collectDateMatches line in
  let hasFrom := test fromKeywordRegex line in
  let hasThru := test thruKeywordRegex line in
  if hasFrom && hasThru && (2 <=? length sameLineDates)%nat
  then Some (lastExpiry sameLineDates)
  else
    let nextLine := if (index + 1 <? length lines)%nat
                    then nth (index + 1) lines [] else [] in
    let nextLineDates := if isEmpty nextLine then []
                         else collectDateMatches nextLine in
    if hasFrom && hasThru && isEmpty' sameLineDates
       && (2 <=? length nextLineDates)%nat
    then Some (lastExpiry nextLineDates)
    else None.

(** The score of the date found at [position] of line [lineIndex]. *)
Definition dateScore (lines : list str) (lineIndex : nat) (line : str)
    (position : nat) : Z :=
  let thruPositions := getPositions line thruKeywordRegex in
  let fromPositions := getPositions line fromKeywordRegex in
  let prevLine := if (0 <? lineIndex)%nat then nth (lineIndex - 1) lines [] else [] in
  let nextLine := if (lineIndex + 1 <? length lines)%nat
                  then nth (lineIndex + 1) lines [] else [] in
  let score := 0 in
  let thruDistance := nearestDistance position thruPositions in
  let fromDistance := nearestDistance position fromPositions in
  let score := match thruDistance with
               | Some d => score + Z.max 0 (80 - Z.of_nat d)
               | None => score
               end in
  let score := match fromDistance with
               | Some d => score - Z.max 0 (90 - Z.of_nat d)
               | None => score
               end in
  let score := if negb (isEmpty' thruPositions)
                  && (minimum thruPositions <=? position)%nat
               then score + 16 else score in
  let score := if negb (isEmpty' fromPositions)
                  && (minimum fromPositions <=? position)%nat
               then score - 24 else score in
  let score := if negb (isEmpty prevLine) && test thruKeywordRegex prevLine
               then score + 22 else score in
  let score := if negb (isEmpty prevLine) && test fromKeywordRegex prevLine
               then score - 18 else score in
  let score := if negb (isEmpty nextLine) && test thruKeywordRegex nextLine
               then score + 8 else score in
  let score := if negb (isEmpty nextLine) && test fromKeywordRegex nextLine
               then score - 8 else score in
  score.

(** The candidates pushed while visiting one line. *)
Definition lineCandidates (lines : list str) (lineIndex : nat) (line : str)
    : list candidate :=
  flat_map (fun m =>
              let expiry := toExpiry (group 0 m) (group 1 m) in
              if isEmpty expiry then []
              else
                let position := m_index m in
                [{| expiry := expiry;
                    score := dateScore lines lineIndex line position;
                    lineIndex := lineIndex;
                    position := position |}])
           (execAll dateRegex line).

(** [lines.forEach((line, lineIndex) => ...)] *)
Definition indexed {A : Type} (l : list A) : list (nat * A) :=
  combine (seq 0 (length l)) l.

Definition expiryCandidates (lines : list str) : list candidate :=
  flat_map (fun il => lineCandidates lines (fst il) (snd il)) (indexed lines).

Definition firstExpiry (l : list candidate) : str :=
  match l with
  | c :: _ => expiry c
  | [] => []
  end.

(** The first loop: the first line index at which the paired FROM/THRU
    case returns. *)
Definition pairedExpiry (lines : list str) : option str :=
  firstSome (pairedLine lines) (seq 0 (length lines)).

Definition extractExpiry (rawText : str) : str :=
  let lines := upperLines rawText in
  match pairedExpiry lines with
  | Some e => e
  | None =>
      let candidates := expiryCandidates lines in
      if isEmpty' candidates then []
      else if (1 <? length candidates)%nat
      then firstExpiry (sort compareExpiry candidates)
      else firstExpiry (sort compareScore candidates)
  end.

(** ** The cardholder name extractor *)

(** [blockedWords], a [Set] given by its members; [has] is membership. *)
Definition blockedWords : list str :=
  map lit
    ["VALID"; "THRU"; "THROUGH"; "FROM"; "MONTH"; "YEAR"; "EXP"; "EXPIRES";
     "CARD"; "DEBIT"; "CREDIT"; "BANK"; "VISA"; "MASTERCARD"; "RUPAY";
     "AMEX"; "DISCOVER"; "PLATINUM"; "SIGNATURE"; "CLASSIC"; "GOLD"; "WORLD";
     "ELECTRON"; "PAY"; "MEMBER"; "SINCE"; "CORP"; "LIMITED"; "LTD";
     "PRIVATE"; "BUSINESS"; "AZADI"; "AMRIT"; "MAHOTSAV"; "INDIA"]%string.

Definition removablePrefixes : list str :=
  map lit ["MR"; "MRS"; "MS"; "MISS"; "DR"; "SHRI"; "SMT"]%string.

(** [a === b] on strings *)
Fixpoint strEqb (a b : str) : bool :=
  match a, b with
  | [], [] => true
  | x :: a', y :: b' => Ascii.eqb x y && strEqb a' b'
  | _, _ => false
  end.

Definition has (set : list str) (w : str) : bool := existsb (strEqb w) set.

(** [/(VALID|THRU|THROUGH|EXP|MONTH|YEAR|MM\/?YY|DEBIT|CREDIT|CARD)/] *)
Definition anchorPattern : pattern :=
  kw "VALID" <|> kw "THRU" <|> kw "THROUGH" <|> kw "EXP" <|> kw "MONTH"
  <|> kw "YEAR" <|> (kw "MM" >> opt (kw "/") >> kw "YY")
  <|> kw "DEBIT" <|> kw "CREDIT" <|> kw "CARD".

(** [/(0[1-9]|1[0-2])\s*[\/-]\s*(\d{2}|\d{4})/] *)
Definition expiryShapeRegex : pattern :=
  ((kw "0" >> chr (inRange "1" "9")) <|> (kw "1" >> chr (inRange "0" "2")))
  >> star isSpace >> chr (oneOf "/-") >> star isSpace
  >> (rep 2 2 (chr isDigit) <|> rep 4 4 (chr isDigit)).

Record nameContext := {
  anchorIndices : list nat;
  cardNumberIndices : list nat;
  expiryIndices : list nat
}.

(** The indices pushed by the first [forEach]. *)
Definition indicesWhere (P : str -> bool) (lines : list str) : list nat :=
  map fst (List.filter (fun il => P (snd il)) (indexed lines)).

Definition scanContext (lines : list str) : nameContext :=
  {| anchorIndices :=
       indicesWhere (fun line => test anchorPattern line
                                 || test expiryShapeRegex line) lines;
     cardNumberIndices :=
       indicesWhere (fun line =>
                       let digitsOnly := digitsOnly line in
                       (13 <=? length digitsOnly)%nat
                       && (length digitsOnly <=? MAX_CARD_DIGITS)%nat) lines;
     expiryIndices := indicesWhere (test expiryShapeRegex) lines |}.

(** [s.replace(/\s+/g, ' ')]; [inRun] says that the previous character
    was white space, already replaced. *)
Fixpoint collapseSpaces (inRun : bool) (s : str) : str :=
  match s with
  | [] => []
  | c :: s' =>
      if isSpace c then
        if inRun then collapseSpaces true s'
        else " "%char :: collapseSpaces true s'
      else c :: collapseSpaces false s'
  end.

Definition normalizeNameLine (line : str) : str :=
  trim
    (collapseSpaces false
      (replaceClass (fun c => negb (isUpperAZ c || isSpace c)) " "
        (replaceClass (oneOf "8") "B"
          (replaceClass (oneOf "5") "S"
            (replaceClass (oneOf "1") "I"
              (replaceClass (oneOf "0") "O" line)))))).

(** [s.split(' ').filter(Boolean)] *)
Definition wordsOf (s : str) : list str :=
  List.filter (fun w => negb (isEmpty w)) (split " " s).

(** The filter part of the second [forEach]: the words of a line that
    passes, [None] where the body returns early. *)
Definition nameWords (line : str) : option (list str) :=
  let normalized := normalizeNameLine line in
  if isEmpty normalized || (length normalized <? 5)%nat
     || (40 <? length normalized)%nat then None
  else
    let words := wordsOf normalized in
    if isEmpty' words then None
    else
      let words := if has removablePrefixes (hd [] words) then tl words
                   else words in
      if (length words <? 2)%nat || (4 <? length words)%nat then None
      else if existsb (fun word => (length word <? 2)%nat
                                   || (14 <? length word)%nat) words then None
      else if existsb (fun word => has blockedWords word) words then None
      else
        let hasVowels := forallb (fun word => test (chr (oneOf "AEIOU")) word) words in
        if negb hasVowels then None
        else Some words.

(** [xs.reduce((closest, current) =>
       Math.abs(current - index) < Math.abs(closest - index) ? current : closest)]
    on a non-empty list *)
Definition nearestIndex (index : nat) (xs : list nat) : nat :=
  match xs with
  | [] => 0%nat
  | x :: xs' =>
      fold_left (fun closest current =>
                   if (absDiff current index <? absDiff closest index)%nat
                   then current else closest) xs' x
  end.

(** [/([A-Z])\1{2,}/]: a capital letter followed by itself twice *)
Fixpoint hasTripleLetter (s : str) : bool :=
  match s with
  | a :: ((b :: c :: _) as s') =>
      (isUpperAZ a && Ascii.eqb a b && Ascii.eqb a c) || hasTripleLetter s'
  | _ => false
  end.

(** [/^[A-Z\s]+$/] *)
Definition upperNameRegex : pattern :=
  chr (fun c => isUpperAZ c || isSpace c)
  >> star (fun c => isUpperAZ c || isSpace c) >> eos.

(** The scoring part of the second [forEach].  [avgLen] is the quotient
    of two small naturals; its comparisons with 3 and 8 are written on
    the numerator. *)
Definition nameScore (ctx : nameContext) (index : nat) (words : list str) : Z :=
  let score := 0 in
  let fullName := join (lit " ") words in
  let score := if (length words =? 2)%nat || (length words =? 3)%nat
               then score + 5 else score in
  let score := if (length words =? 4)%nat then score + 2 else score in
  let letters := length (removeClass isSpace fullName) in
  let score := if (3 * length words <=? letters)%nat
                  && (letters <=? 8 * length words)%nat
               then score + 3 else score in
  let score := if testAtStart upperNameRegex fullName then score + 2 else score in
  let score :=
    if negb (isEmpty' (anchorIndices ctx)) then
      let minDistance :=
        minimum (map (fun anchorIndex => absDiff anchorIndex index)
                     (anchorIndices ctx)) in
      if (minDistance <=? 2)%nat then score + 3
      else if (minDistance <=? 4)%nat then score + 1
      else score
    else score in
  let score :=
    if negb (isEmpty' (cardNumberIndices ctx)) then
      let nearestCardIndex := nearestIndex index (cardNumberIndices ctx) in
      let score := if (nearestCardIndex <? index)%nat
                      && (index - nearestCardIndex <=? 6)%nat
                   then score + 4 else score in
      if (index <? nearestCardIndex)%nat then score - 2 else score
    else score in
  let score :=
    if negb (isEmpty' (expiryIndices ctx)) then
      let nearestExpiryIndex := nearestIndex index (expiryIndices ctx) in
      if (nearestExpiryIndex <? index)%nat
         && (index - nearestExpiryIndex <=? 4)%nat
      then score + 3 else score
    else score in
  let score := if hasTripleLetter fullName then score - 3 else score in
  score.

(** The name candidates with their scores, in line order. *)
Definition nameCandidates (lines : list str) : list (str * Z) :=
  let ctx := scanContext lines in
  flat_map (fun il =>
              match nameWords (snd il) with
              | Some words => [(join (lit " ") words, nameScore ctx (fst il) words)]
              | None => []
              end)
           (indexed lines).

(** [bestScore] starts at [Number.NEGATIVE_INFINITY], which is [None]. *)
Record best := { bestCandidate : str; bestScore : option Z }.

Definition betterThan (score : Z) (bestScore : option Z) : bool :=
  match bestScore with
  | None => true
  | Some b => b <? score
  end.

Definition keepBest (b : best) (c : str * Z) : best :=
  if betterThan (snd c) (bestScore b)
  then {| bestCandidate := fst c; bestScore := Some (snd c) |}
  else b.

Definition extractCardholderName (rawText : str) : str :=
  let lines := upperLines rawText in
  let b := fold_left keepBest (nameCandidates lines)
             {| bestCandidate := []; bestScore := None |} in
  match bestScore b with
  | Some sc => if 0 <? sc then bestCandidate b else []
  | None => []
  end.

(** ** The mask *)

(** The mask glyph is U+2022, here the three bytes of its UTF-8 form. *)
Definition maskCardNumber (cardNumber : str) : str :=
  if isEmpty cardNumber || (length cardNumber <? 4)%nat then []
  else lit "•••• •••• •••• " ++ sliceLast 4 cardNumber.

(** ** Sessions and the request handlers *)

Inductive Status := pending | ready.

(** Times are milliseconds since the epoch, also where the source holds
    them as ISO strings. *)
Record CardRecord := {
  cardNumber : str;
  maskedCardNumber : str;
  cardholderName : str;
  expiryDate : str;
  cardType : CardType;
  scannedAt : Z;
  deliveredAt : option Z
}.

Record Session := {
  createdAt : Z;
  expiresAt : Z;
  status : Status;
  data : option CardRecord
}.

Definition SESSION_TTL_MS : Z := 5 * 60 * 1000.

(** The body of a JSON response. *)
Inductive Body :=
  | Failure (error : string)
  | Scanned (message : string) (masked name expiry : str) (type : CardType)
  | Pending
  | Ready (record : CardRecord).

Record Response := { httpStatus : nat; body : Body }.

Definition errorJson (status : nat) (error : string) : Response :=
  {| httpStatus := status; body := Failure error |}.

Definition ok (b : Body) : Response := {| httpStatus := 200; body := b |}.

Definition cleanupExpiredSessions (now : Z) (scanSessions : gmap string Session)
    : gmap string Session :=
  filter (fun entry => ¬ (expiresAt entry.2 <= now)) scanSessions.

(** [POST /api/session], the part that touches the store: [sweepTime] and
    [createdAt] are the two clock readings, [sessionId] the fresh uuid. *)
Definition createSession (sweepTime createdAt : Z) (sessionId : string)
    (scanSessions : gmap string Session) : gmap string Session :=
  <[sessionId := {| createdAt := createdAt;
                    expiresAt := createdAt + SESSION_TTL_MS;
                    status := pending;
                    data := None |}]>
    (cleanupExpiredSessions sweepTime scanSessions).

(** What the external recognizer does with an image: it throws, or it
    answers with the recognized text. *)
Inductive OcrOutcome := OcrThrows (message : string) | OcrText (text : str).

Section Handlers.

Variable buffer : Type.
Variable runVisionOCR : buffer -> OcrOutcome.

Record ScanRequest := {
  scanSessionId : option string;   (* [req.body.sessionId] *)
  file : option buffer             (* [req.file?.buffer] *)
}.

(** [!sessionId] holds of a missing and of an empty id. *)
Definition presentId (sessionId : option string) : option string :=
  match sessionId with
  | Some id => if String.eqb id "" then None else Some id
  | None => None
  end.

(** [POST /api/scan].  [now] is the clock at the expiry check and
    [scanTime] the clock when the record is built. *)
Definition scanHandler (now scanTime : Z) (req : ScanRequest)
    (scanSessions : gmap string Session) : Response * gmap string Session :=
  match presentId (scanSessionId req) with
  | None => (errorJson 400 "Missing sessionId", scanSessions)
  | Some sessionId =>
      match scanSessions !! sessionId with
      | None => (errorJson 404 "Session not found/expired", scanSessions)
      | Some session =>
          if bool_decide (expiresAt session <= now) then
            (errorJson 410 "Session expired", delete sessionId scanSessions)
          else
            match file req with
            | None => (errorJson 400 "No image uploaded", scanSessions)
            | Some buf =>
                match runVisionOCR buf with
                | OcrThrows message =>
                    (errorJson 500 (if String.eqb message "" then "Scan failed"
                               else message), scanSessions)
                | OcrText ocrText =>
                    let cardNumber := extractCardNumber ocrText in
                    let expiryDate := extractExpiry ocrText in
                    let cardholderName := extractCardholderName ocrText in
                    if isEmpty cardNumber then
                      (errorJson 422 "Card number not detected. Please capture again with better lighting.",
                       scanSessions)
                    else if (MAX_CARD_DIGITS <? length cardNumber)%nat then
                      (errorJson 422 "Card number must be 16 digits or less.",
                       scanSessions)
                    else
                      let cardType := detectCardType cardNumber in
                      let record :=
                        {| cardNumber := cardNumber;
                           maskedCardNumber := maskCardNumber cardNumber;
                           cardholderName := cardholderName;
                           expiryDate := expiryDate;
                           cardType := cardType;
                           scannedAt := scanTime;
                           deliveredAt := None |} in
                      (ok (Scanned "Card scanned successfully"
                             (maskedCardNumber record) (cardholderName)
                             (expiryDate) (cardType)),
                       <[sessionId := {| createdAt := createdAt session;
                                         expiresAt := expiresAt session;
                                         status := ready;
                                         data := Some record |}]> scanSessions)
                end
            end
      end
  end.

(** [GET /api/get-data].  [sweepTime] is the clock read by the sweep at
    the top of the handler, [now] the clock at the expiry check and
    [pollTime] the clock when the delivery is stamped.  The payload
    shares the record with the session, so it shows the stamp. *)
Definition pollHandler (sweepTime now pollTime : Z) (sessionId : option string)
    (scanSessions : gmap string Session) : Response * gmap string Session :=
  let scanSessions := cleanupExpiredSessions sweepTime scanSessions in
  match presentId sessionId with
  | None => (errorJson 400 "Missing sessionId", scanSessions)
  | Some sessionId =>
      match scanSessions !! sessionId with
      | None => (errorJson 404 "Session not found/expired", scanSessions)
      | Some session =>
          if bool_decide (expiresAt session <= now) then
            (errorJson 410 "Session expired", delete sessionId scanSessions)
          else
            match status session, data session with
            | ready, Some record =>
                match deliveredAt record with
                | Some _ => (ok (Ready record), scanSessions)
                | None =>
                    let record :=
                      {| cardNumber := cardNumber record;
                         maskedCardNumber := maskedCardNumber record;
                         cardholderName := cardholderName record;
                         expiryDate := expiryDate record;
                         cardType := cardType record;
                         scannedAt := scannedAt record;
                         deliveredAt := Some pollTime |} in
                    (ok (Ready record),
                     <[sessionId := {| createdAt := createdAt session;
                                       expiresAt := expiresAt session;
                                       status := status session;
                                       data := Some record |}]> scanSessions)
                end
            | _, _ => (ok Pending, scanSessions)
            end
      end
  end.

End Handlers.

Arguments scanSessionId {buffer} _.
Arguments file {buffer} _.
Arguments scanHandler {buffer} _ _ _ _ _.

(** ** The session creation handler *)

(** [encodeURIComponent], on the UTF-8 bytes of the string: the
    unreserved characters stay and every other byte becomes [%XX]. *)
Definition isUnreserved (c : ascii) : bool :=
  isUpperAZ c || isLowerAZ c || isDigit c || oneOf "-_.!~*'()" c.

Definition hexDigit (n : N) : ascii :=
  nth (N.to_nat n) (lit "0123456789ABCDEF") "0"%char.

Definition encodeChar (c : ascii) : str :=
  if isUnreserved c then [c]
  else ["%"%char; hexDigit (code c / 16); hexDigit (code c mod 16)].

Definition encodeURIComponent (s : str) : str := flat_map encodeChar s.

(** What the QR renderer does with a URL: it throws, or it answers with
    the data URL of the image. *)
Inductive QrOutcome := QrThrows (message : string) | QrImage (dataUrl : str).

Inductive SessionBody :=
  | SessionFailure (error : string)
  | SessionCreated (sessionId : string) (mobileUrl desktopUrl qrCode : str)
                   (expiresInSec : Z).

Record SessionResponse := { sessionHttpStatus : nat; sessionBody : SessionBody }.

(** [POST /api/session].  [sessionId] is the fresh uuid, [baseUrl] what
    [getPublicBaseUrl(req)] resolves to (empty when it resolves to
    nothing) and [toDataURL] the QR renderer.  The session is stored
    before the base URL is looked at. *)
Definition sessionHandler (sweepTime createdAt : Z) (sessionId : string)
    (baseUrl : str) (toDataURL : str -> QrOutcome)
    (scanSessions : gmap string Session)
    : SessionResponse * gmap string Session :=
  let scanSessions := createSession sweepTime createdAt sessionId scanSessions in
  if isEmpty baseUrl then
    ({| sessionHttpStatus := 500;
        sessionBody := SessionFailure
          "PUBLIC_BASE_URL must be configured for secure hosted deployment." |},
     scanSessions)
  else
    let desktopUrl :=
      baseUrl ++ lit "/?sessionId=" ++ encodeURIComponent (lit sessionId)
      ++ lit "&autopoll=1" in
    let mobileUrl :=
      baseUrl ++ lit "/scanner.html?sessionId="
      ++ encodeURIComponent (lit sessionId)
      ++ lit "&returnTo=" ++ encodeURIComponent desktopUrl in
    match toDataURL mobileUrl with
    | QrThrows message =>
        ({| sessionHttpStatus := 500; sessionBody := SessionFailure message |},
         scanSessions)
    | QrImage qrDataUrl =>
        ({| sessionHttpStatus := 200;
            sessionBody := SessionCreated sessionId mobileUrl desktopUrl
                             qrDataUrl (SESSION_TTL_MS / 1000) |},
         scanSessions)
    end.

(** [GET /api/health]: the number of sessions in the map. *)
Definition activeSessions (scanSessions : gmap string Session) : nat :=
  size scanSessions.

(** ** The desktop page ([public/index.js]) *)

(** [(value || '').replace(/\D/g, '').slice(0, 16)] *)
Definition normalizeCardNumber (value : str) : str :=
  firstn 16 (digitsOnly value).

(** [.]: any character but a line terminator *)
Definition isAnyChar (c : ascii) : bool :=
  negb (isChar "010" c || isChar "013" c).

(** [s.replace(re, f)] for a global regex: the text between the matches
    is kept and each match is replaced by what [f] makes of it. *)
Fixpoint replaceFrom (p : pattern) (f : rmatch -> str) (skip : nat)
    (prev : option ascii) (pos : nat) (s : str) {struct s} : str :=
  match skip with
  | S k =>
      match s with
      | c :: s' => replaceFrom p f k (Some c) (S pos) s'
      | [] => []
      end
  | O =>
      match matchAt p prev s with
      | Some (n, caps) =>
          f {| m_index := pos; m_text := firstn n s; m_groups := caps |} ++
          match s with
          | c :: s' =>
              match n with
              | O => c :: replaceFrom p f 0 (Some c) (S pos) s'
              | S n' => replaceFrom p f n' (Some c) (S pos) s'
              end
          | [] => []
          end
      | None =>
          match s with
          | c :: s' => c :: replaceFrom p f 0 (Some c) (S pos) s'
          | [] => []
          end
      end
  end.

Definition replaceAll (p : pattern) (f : rmatch -> str) (s : str) : str :=
  replaceFrom p f 0 None 0 s.

(** [/(.{4})/g] *)
Definition fourCharsRegex : pattern := cap (rep 4 4 (chr isAnyChar)).

(** [normalizeCardNumber(number).replace(/(.{4})/g, '$1 ').trim()] *)
Definition formatCardNumber (number : str) : str :=
  trim (replaceAll fourCharsRegex (fun m => group 0 m ++ lit " ")
          (normalizeCardNumber number)).

(** The card number field as [applyCardData] fills it. *)
Definition displayNumber (data : CardRecord) : str :=
  let rawNumber := normalizeCardNumber (cardNumber data) in
  let maskedNumber := maskedCardNumber data in
  if isEmpty rawNumber then maskedNumber else formatCardNumber rawNumber.

(** ** The checksum as the specification words it

    Positions are counted from the rightmost digit, position 0; the digit
    at every second position (1, 3, 5, ...) is doubled, 9 is taken off a
    doubled value above 9, and everything is added up.  [mod10Checksum]
    follows these words, not the loop of [luhnCheck]. *)

Definition digitValue (c : ascii) : Z := Z.of_N (code c) - 48.

Definition luhnDigit (k : nat) (d : Z) : Z :=
  if Nat.odd k then (if 9 <? 2 * d then 2 * d - 9 else 2 * d) else d.

Definition mod10Checksum (d : str) : Z :=
  let n := length d in
  fold_right Z.add 0
    (map (fun k => luhnDigit k (digitValue (nth (n - 1 - k) d "0"%char)))
         (seq 0 n)).

(** ** Vocabulary of the properties *)

(** The checksum of the digits listed from the right, [b] telling
    whether the first one is doubled. *)
Fixpoint altSum (b : bool) (r : str) : Z :=
  match r with
  | [] => 0
  | c :: r' => luhnDigit (if b then 1 else 0) (digitValue c) + altSum (negb b) r'
  end.

(** The normalizer acts character by character, as this map. *)
Definition normChar (c : ascii) : ascii :=
  let c := upperChar c in
  let c := if oneOf "OQD" c then "0"%char else c in
  let c := if oneOf "IL|" c then "1"%char else c in
  let c := if oneOf "S" c then "5"%char else c in
  let c := if oneOf "B" c then "8"%char else c in
  let c := if oneOf "Z" c then "2"%char else c in
  if oneOf "G" c then "6"%char else c.

(** A character that the normalizer leaves or turns into a digit: a
    digit, or one of the letters read as one. *)
Definition digitLike (c : ascii) : bool := isDigit (normChar c).

(** A digit run: digits, with at most one space or dash between two
    consecutive ones. *)
Fixpoint isDigitRun (s : str) : bool :=
  match s with
  | [] => false
  | d :: s' =>
      isDigit d &&
      match s' with
      | [] => true
      | c :: s'' => if oneOf " -" c then isDigitRun s'' else isDigitRun s'
      end
  end.

(** A string of card number shape: digits only, 13 to 16 of them. *)
Definition cardShaped (s : str) : Prop :=
  Forall (fun c => isDigit c = true) s /\ (13 <= length s <= 16)%nat.

(** [a] is at least as late as [b]: a later year, or the same year and
    no earlier month. *)
Definition noEarlier (a b : candidate) : Prop :=
  expiryYear (expiry b) < expiryYear (expiry a)
  \/ (expiryYear (expiry b) = expiryYear (expiry a)
      /\ expiryMonth (expiry b) <= expiryMonth (expiry a)).

(** The mask glyphs of a string: the occurrences of the glyph's bytes. *)
Definition maskGlyph : str := lit "•".

Fixpoint countGlyphs (s : str) : nat :=
  match s with
  | a :: ((b :: c :: rest) as s') =>
      if strEqb [a; b; c] maskGlyph then S (countGlyphs rest)
      else countGlyphs s'
  | _ => 0%nat
  end.

(** A store with one session, created at time 0. *)
Definition oneSession (sessionId : string) : gmap string Session :=
  createSession 0 0 sessionId ∅.

(** The record that a successful scan of [ocrText] attaches. *)
Definition scanRecord (ocrText : str) (scanTime : Z) : CardRecord :=
  {| cardNumber := extractCardNumber ocrText;
     maskedCardNumber := maskCardNumber (extractCardNumber ocrText);
     cardholderName := extractCardholderName ocrText;
     expiryDate := extractExpiry ocrText;
     cardType := detectCardType (extractCardNumber ocrText);
     scannedAt := scanTime;
     deliveredAt := None |}.

(** A record with its delivery stamped. *)
Definition delivered (record : CardRecord) (pollTime : Z) : CardRecord :=
  {| cardNumber := cardNumber record;
     maskedCardNumber := maskedCardNumber record;
     cardholderName := cardholderName record;
     expiryDate := expiryDate record;
     cardType := cardType record;
     scannedAt := scannedAt record;
     deliveredAt := Some pollTime |}.

(** A session with a record attached. *)
Definition attach (session : Session) (record : CardRecord) : Session :=
  {| createdAt := createdAt session;
     expiresAt := expiresAt session;
     status := ready;
     data := Some record |}.

(** A record as the scan handler builds them: a Luhn-valid number of 13
    to 16 digits, with its network and its mask. *)
Definition recordValid (r : CardRecord) : Prop :=
  cardShaped (cardNumber r) /\ luhnCheck (cardNumber r) = true /\
  cardType r = detectCardType (cardNumber r) /\
  maskedCardNumber r = maskCardNumber (cardNumber r).

(** Every session has a record exactly when it is ready, and the record
    is valid. *)
Definition storeInvariant (scanSessions : gmap string Session) : Prop :=
  forall sessionId session,
    scanSessions !! sessionId = Some session ->
    (status session = ready <-> data session <> None) /\
    (forall r, data session = Some r -> recordValid r).

(** The digits in groups of four. *)
Fixpoint groupsOfFour (fuel : nat) (s : str) : list str :=
  match fuel with
  | O => []
  | S fuel' =>
      match s with
      | [] => []
      | _ => firstn 4 s :: groupsOfFour fuel' (skipn 4 s)
      end
  end.

(** A window of the digit stream: [len] digits from offset [start]. *)
Definition validWindow (allDigits : str) (start len : nat) : Prop :=
  (13 <= len <= 16)%nat /\ (start + len <= length allDigits)%nat /\
  luhnCheck (slice start (start + len) allDigits) = true.

(** The store of [oneSession] after a successful scan at time 1000. *)
Definition scannedStore : gmap string Session :=
  snd (scanHandler (fun _ : unit => OcrText (lit "4111 1111 1111 1111"))
         1000 1001 {| scanSessionId := Some "s1"%string; file := Some tt |}
         (oneSession "s1")).

(** The network of a card number by the number that its first four
    digits make, as the prefix rules of [detectCardType] read. *)
Definition networkOf (n : Z) : CardType :=
  if (4000 <=? n) && (n <=? 4999) then VISA
  else if ((5100 <=? n) && (n <=? 5599)) || ((2220 <=? n) && (n <=? 2720))
  then MASTERCARD
  else if ((6000 <=? n) && (n <=? 6099)) || ((6500 <=? n) && (n <=? 6599))
          || ((8100 <=? n) && (n <=? 8299)) || ((5080 <=? n) && (n <=? 5089))
  then RUPAY
  else if ((3400 <=? n) && (n <=? 3499)) || ((3700 <=? n) && (n <=? 3799))
  then AMEX
  else UNKNOWN.

(** An expiry value as [toExpiry] makes them: a month from 01 to 12, a
    slash, and a year of two or three digits. *)
Definition expiryShaped (e : str) : Prop :=
  exists m1 m2 year,
    e = m1 :: m2 :: "/"%char :: year /\
    ((m1 = "0"%char /\ inRange "1" "9" m2 = true)
     \/ (m1 = "1"%char /\ inRange "0" "2" m2 = true)) /\
    Forall (fun c => isDigit c = true) year /\
    (length year = 2 \/ length year = 3)%nat.

(** A word of a name: 2 to 14 capital letters, a vowel among them. *)
Definition nameWordShaped (w : str) : Prop :=
  (2 <= length w <= 14)%nat /\
  Forall (fun c => isUpperAZ c = true) w /\
  exists v, In v w /\ oneOf "AEIOU" v = true.

(** The digits with a space behind every full group of four. *)
Fixpoint spaced (fuel : nat) (d : str) : str :=
  match fuel with
  | O => d
  | S fuel' =>
      match d with
      | a :: b :: c :: e :: rest => a :: b :: c :: e :: " "%char :: spaced fuel' rest
      | _ => d
      end
  end.

(** A character of the ASCII range.  On a text of such characters
    [toUpperCase] above is what [String.prototype.toUpperCase] does; on
    other text the latter also rewrites letters outside the range, some
    of them into ASCII letters (the sharp s into SS, the dotless i into
    I, the long s into S), so a property that depends on which
    characters upper-casing produces asks for ASCII text. *)
Definition isAscii (c : ascii) : bool := (code c <? 128)%N.

Definition asciiText (s : str) : Prop := Forall (fun c => isAscii c = true) s.

(** Line [index] is a paired FROM/THRU line, and [dates] are the dates
    that the paired case reads there: the line holds a from keyword and
    a thru keyword, and [dates] are the two or more dates of the line
    or, when the line has no date, the two or more dates of the next
    line. *)
Definition pairedDates (lines : list str) (index : nat)
    (dates : list dateMatch) : Prop :=
  let line := nth index lines [] in
  test fromKeywordRegex line = true /\
  test thruKeywordRegex line = true /\
  (2 <= length dates)%nat /\
  (dates = collectDateMatches line
   \/ (collectDateMatches line = [] /\
       (index + 1 < length lines)%nat /\
       dates = collectDateMatches (nth (index + 1) lines []))).

(** A run of poll requests for one id, each with its three clock
    readings: the responses in order, and the store after the last. *)
Fixpoint pollRun (sessionId : string) (polls : list (Z * Z * Z))
    (scanSessions : gmap string Session)
    : list Response * gmap string Session :=
  match polls with
  | [] => ([], scanSessions)
  | (sweepTime, now, pollTime) :: rest =>
      let r := pollHandler sweepTime now pollTime (Some sessionId) scanSessions in
      let rs := pollRun sessionId rest (snd r) in
      (fst r :: fst rs, snd rs)
  end.

(** The clock readings of a poll are before the session lapses. *)
Definition beforeExpiry (session : Session) (poll : Z * Z * Z) : Prop :=
  let '(sweepTime, now, _) := poll in
  sweepTime < expiresAt session /\ now < expiresAt session.

(** * Properties *)

(** ** Characters *)

Ltac each_char c :=
  destruct c as [[|] [|] [|] [|] [|] [|] [|] [|]]; vm_compute; try reflexivity;
  try discriminate; auto.

Lemma normalize_map (text : str) :
  normalizeDigitLikeText text = map normChar text.
Proof.
  unfold normalizeDigitLikeText, replaceClass, toUpperCase.
  rewrite !map_map. reflexivity.
Qed.

Lemma normChar_idem (c : ascii) : normChar (normChar c) = normChar c.
Proof. each_char c. Qed.

Lemma normChar_digit (c : ascii) : isDigit c = true -> normChar c = c.
Proof. each_char c. Qed.

Lemma normChar_separator (c : ascii) : oneOf " -" c = true -> normChar c = c.
Proof. each_char c. Qed.

Lemma digit_not_glyph (c : ascii) :
  isDigit c = true -> Ascii.eqb c "226" = false.
Proof. each_char c. Qed.

Lemma digitValue_range (c : ascii) :
  isDigit c = true -> 0 <= digitValue c <= 9.
Proof. each_char c; split; discriminate. Qed.

Lemma NumberOfChar_digit (c : ascii) :
  isDigit c = true -> NumberOfChar c = Some (digitValue c).
Proof. unfold NumberOfChar. intros ->. reflexivity. Qed.

(** ** C10: the normalizer is idempotent *)

(** C10.  Normalizing a normalized text changes nothing:
    [normalizeDigitLikeText (normalizeDigitLikeText x)] is
    [normalizeDigitLikeText x] for every string [x]. *)
Theorem normalizeDigitLikeText_idempotent (x : str) :
  normalizeDigitLikeText (normalizeDigitLikeText x) = normalizeDigitLikeText x.
Proof.
  rewrite !normalize_map, map_map.
  apply map_ext. intro c. apply normChar_idem.
Qed.

(** The digits are fixed points of the substitution. *)
Lemma normalize_digits (d : str) :
  Forall (fun c => isDigit c = true) d -> normalizeDigitLikeText d = d.
Proof.
  intro H. rewrite normalize_map.
  induction H as [|c d Hc _ IH]; simpl; [reflexivity|].
  rewrite normChar_digit, IH; auto.
Qed.

(** ** C1: the network detector on the five test vectors *)

Lemma detectCardType_vectors :
  detectCardType (lit "4111111111111111") = VISA /\
  detectCardType (lit "5500000000000004") = MASTERCARD /\
  detectCardType (lit "340000000000009") = AMEX /\
  detectCardType (lit "6076000000000000") = RUPAY.
Proof. repeat split; reflexivity. Qed.

(** C1.  The Discover vector [6011000000000004] starts with [60], which
    the RuPay rule, evaluated before the Discover rule, takes: it is
    classified RUPAY, not DISCOVER. *)
Theorem detectCardType_discover_vector :
  detectCardType (lit "6011000000000004") = RUPAY.
Proof. reflexivity. Qed.

(** ** C5: the shape of an expiry value *)

(** C5.  A three-digit year is kept whole: on the text [12/345] the
    extractor returns [12/345], whose year part has three digits. *)
Theorem extractExpiry_three_digit_year :
  extractExpiry (lit "12/345") = lit "12/345".
Proof. vm_compute. reflexivity. Qed.

(** The Discover rule is never reached: what starts with [6011] or [65]
    starts with [60] or [65]. *)
Lemma detectCardType_never_discover (cardNumber : str) :
  detectCardType cardNumber <> DISCOVER.
Proof.
  unfold detectCardType.
  destruct (testAtStart visaRegex _); [discriminate|].
  destruct (testAtStart mastercardRegex _); [discriminate|].
  destruct (testAtStart rupayRegex _) eqn:Hr; [discriminate|].
  destruct (testAtStart amexRegex _); [discriminate|].
  destruct (testAtStart discoverRegex _) eqn:Hd; [|discriminate].
  exfalso. revert Hr Hd.
  generalize (digitsOnly cardNumber). intros bin.
  unfold rupayRegex, discoverRegex.
  cbv [testAtStart matchAt alt andThen chr kw word lit list_ascii_of_string
       bump accept].
  destruct bin as [|a [|b bin]]; try discriminate.
  - destruct (isChar "6" a); discriminate.
  - destruct (isChar "6" a); [|discriminate].
    destruct (isChar "0" b); [discriminate|].
    destruct (isChar "5" b); discriminate.
Qed.

(** ** C2: the Luhn check is the mod-10 checksum *)

Lemma luhnDigit_range (k : nat) (c : ascii) :
  isDigit c = true -> 0 <= luhnDigit k (digitValue c) <= 9.
Proof.
  intro H. apply digitValue_range in H. unfold luhnDigit.
  destruct (Nat.odd k); [|lia].
  destruct (Z.ltb_spec 9 (2 * digitValue c)); lia.
Qed.

Lemma altSum_nonneg (b : bool) (r : str) :
  Forall (fun c => isDigit c = true) r -> 0 <= altSum b r.
Proof.
  intro H. revert b. induction H as [|c r Hc _ IH]; intro b; simpl; [lia|].
  pose proof (luhnDigit_range (if b then 1 else 0) c Hc).
  specialize (IH (negb b)). lia.
Qed.

(** The loop, run over digits listed from the right, adds [altSum] to the
    running sum. *)
Lemma luhn_loop (r : str) :
  Forall (fun c => isDigit c = true) r ->
  forall (s : Z) (b : bool),
    sum (fold_left luhnStep r {| sum := Some s; shouldDouble := b |})
    = Some (s + altSum b r).
Proof.
  induction 1 as [|c r Hc _ IH]; intros s b; simpl.
  - f_equal. lia.
  - unfold luhnStep at 2. simpl.
    rewrite (NumberOfChar_digit c Hc).
    destruct b; simpl; rewrite IH; f_equal; unfold luhnDigit; simpl.
    + replace (digitValue c * 2) with (2 * digitValue c) by lia.
      destruct (9 <? 2 * digitValue c); lia.
    + lia.
Qed.

(** The indexed sum over a list read from its head at offset [j]. *)
Lemma indexed_sum_altSum (r : str) (j : nat) :
  fold_right Z.add 0
    (map (fun k => luhnDigit (j + k) (digitValue (nth k r "0"%char)))
         (seq 0 (length r)))
  = altSum (Nat.odd j) r.
Proof.
  revert j. induction r as [|c r IH]; intro j; [reflexivity|].
  cbn [length seq map fold_right altSum nth].
  rewrite <- seq_shift, map_map.
  rewrite (map_ext _ (fun k => luhnDigit (S j + k) (digitValue (nth k r "0"%char)))).
  2:{ intro k. simpl. f_equal. lia. }
  rewrite IH. rewrite Nat.odd_succ, <- Nat.negb_odd.
  f_equal. unfold luhnDigit. rewrite Nat.add_0_r.
  destruct (Nat.odd j); reflexivity.
Qed.

Lemma mod10Checksum_altSum (d : str) :
  mod10Checksum d = altSum false (rev d).
Proof.
  unfold mod10Checksum.
  change false with (Nat.odd 0).
  rewrite <- (indexed_sum_altSum (rev d) 0), length_rev.
  f_equal. apply map_ext_in. intros k Hk. apply in_seq in Hk.
  simpl. f_equal. f_equal.
  rewrite rev_nth by lia. f_equal. lia.
Qed.

Lemma luhnCheck_checksum (d : str) :
  Forall (fun c => isDigit c = true) d ->
  luhnCheck d = true <-> mod10Checksum d mod 10 = 0.
Proof.
  intro Hd.
  assert (Hr : Forall (fun c => isDigit c = true) (rev d)).
  { apply List.Forall_rev, Hd. }
  unfold luhnCheck. rewrite (luhn_loop _ Hr). simpl.
  rewrite mod10Checksum_altSum.
  pose proof (altSum_nonneg false _ Hr).
  rewrite Z.rem_mod_nonneg by lia.
  apply Z.eqb_eq.
Qed.

(** C2.  On a digit string of length 13 to 16, [luhnCheck] holds exactly
    when the mod-10 checksum (every second digit from the right doubled,
    9 taken off a doubled value above 9, all summed) is 0 modulo 10. *)
Theorem luhnCheck_correct (d : str) :
  Forall (fun c => isDigit c = true) d ->
  (13 <= length d <= 16)%nat ->
  luhnCheck d = true <-> mod10Checksum d mod 10 = 0.
Proof. intros Hd _. apply luhnCheck_checksum, Hd. Qed.

Lemma luhnCheck_correct_witness :
  luhnCheck (lit "4111111111111111") = true
  <-> mod10Checksum (lit "4111111111111111") mod 10 = 0.
Proof.
  apply (luhnCheck_correct (lit "4111111111111111")).
  - repeat constructor.
  - simpl. lia.
Defined.

(** ** C7: the masked card number *)

Lemma sliceLast_length (n : nat) (s : str) :
  (n <= length s)%nat -> length (sliceLast n s) = n.
Proof. intro H. unfold sliceLast. rewrite length_skipn. lia. Qed.

Lemma sliceLast_suffix (n : nat) (s : str) :
  s = firstn (length s - n) s ++ sliceLast n s.
Proof. unfold sliceLast. symmetry. apply firstn_skipn. Qed.

Lemma Forall_skipn_digits (n : nat) (s : str) :
  Forall (fun c => isDigit c = true) s ->
  Forall (fun c => isDigit c = true) (skipn n s).
Proof.
  intro H. revert n. induction H as [|c s Hc Hs IH]; intro n.
  - rewrite skipn_nil. constructor.
  - destruct n; simpl; [constructor; assumption | apply IH].
Qed.

Lemma Forall_firstn_digits (n : nat) (s : str) :
  Forall (fun c => isDigit c = true) s ->
  Forall (fun c => isDigit c = true) (firstn n s).
Proof.
  intro H. revert n. induction H as [|c s Hc Hs IH]; intro n.
  - rewrite firstn_nil. constructor.
  - destruct n; simpl; constructor; [assumption | apply IH].
Qed.

(** The mask in front of four digits shows twelve glyphs. *)
Lemma countGlyphs_mask (tail : str) :
  Forall (fun c => isDigit c = true) tail -> length tail = 4%nat ->
  countGlyphs (lit "•••• •••• •••• " ++ tail) = 12%nat.
Proof.
  intros Hd Hl.
  destruct tail as [|a [|b [|c [|d [|e tail]]]]]; try discriminate Hl.
  inversion Hd as [|? ? Ha Hd1]; subst.
  inversion Hd1 as [|? ? Hb Hd2]; subst.
  apply digit_not_glyph in Ha, Hb.
  cbn. rewrite Ha, Hb. reflexivity.
Qed.

(** C7, as the source has it: a 13-digit number is masked with twelve
    glyphs, not with the nine that its hidden digits would call for. *)
Lemma maskCardNumber_thirteen_digits :
  Forall (fun c => isDigit c = true) (lit "4222222222222") /\
  length (lit "4222222222222") = 13%nat /\
  countGlyphs (maskCardNumber (lit "4222222222222"))
  <> (length (lit "4222222222222") - 4)%nat.
Proof.
  split; [repeat constructor|]. split; [reflexivity|].
  vm_compute. discriminate.
Qed.

(** C7.  The mask of a card number of 13 to 16 digits is the fixed
    template of three groups of four glyphs, each followed by a space,
    and then the last four digits of the number: twelve glyphs whatever
    the length, which is one per hidden digit exactly for 16 digits. *)
Theorem maskCardNumber_template (cardNumber : str) :
  Forall (fun c => isDigit c = true) cardNumber ->
  (13 <= length cardNumber <= 16)%nat ->
  maskCardNumber cardNumber
    = lit "•••• •••• •••• " ++ sliceLast 4 cardNumber /\
  cardNumber
    = firstn (length cardNumber - 4) cardNumber ++ sliceLast 4 cardNumber /\
  length (sliceLast 4 cardNumber) = 4%nat /\
  countGlyphs (maskCardNumber cardNumber) = 12%nat /\
  (countGlyphs (maskCardNumber cardNumber) = (length cardNumber - 4)%nat
   <-> length cardNumber = 16%nat).
Proof.
  intros Hd Hl.
  assert (Hm : maskCardNumber cardNumber
               = lit "•••• •••• •••• " ++ sliceLast 4 cardNumber).
  { unfold maskCardNumber.
    destruct cardNumber as [|c s]; [simpl in Hl; lia|].
    destruct (Nat.ltb_spec (length (c :: s)) 4); [lia|]. reflexivity. }
  assert (H4 : length (sliceLast 4 cardNumber) = 4%nat)
    by (apply sliceLast_length; lia).
  assert (Hc : countGlyphs (maskCardNumber cardNumber) = 12%nat).
  { rewrite Hm. apply countGlyphs_mask; [|exact H4].
    apply Forall_skipn_digits, Hd. }
  repeat split; try assumption.
  - apply sliceLast_suffix.
  - rewrite Hc. lia.
  - rewrite Hc. lia.
Qed.

Lemma maskCardNumber_template_witness :
  maskCardNumber (lit "4111111111111111")
    = lit "•••• •••• •••• " ++ lit "1111" /\
  countGlyphs (maskCardNumber (lit "4111111111111111")) = 12%nat.
Proof.
  destruct (maskCardNumber_template (lit "4111111111111111"))
    as (H1 & _ & _ & H4 & _).
  - repeat constructor.
  - simpl. lia.
  - split; [exact H1 | exact H4].
Defined.

(** ** C4: the extracted number has at most 16 digits *)

Lemma firstSome_Some {A B : Type} (f : A -> option B) (l : list A) (y : B) :
  firstSome f l = Some y -> exists x, In x l /\ f x = Some y.
Proof.
  induction l as [|x l IH]; simpl; [discriminate|].
  destruct (f x) eqn:Hx.
  - intros [= ->]. exists x. auto.
  - intro H. destruct (IH H) as (x' & Hin & Hf). exists x'. auto.
Qed.

Lemma digitsOnly_digits (s : str) :
  Forall (fun c => isDigit c = true) (digitsOnly s).
Proof.
  unfold digitsOnly, removeClass.
  induction s as [|c s IH]; simpl; [constructor|].
  destruct (isDigit c) eqn:Hc; simpl; [constructor|]; assumption.
Qed.

Lemma groupDigits_shaped (group digits : str) :
  groupDigits group = Some digits -> cardShaped digits.
Proof.
  unfold groupDigits, MAX_CARD_DIGITS.
  destruct (Nat.leb_spec 13 (length (digitsOnly group))); simpl; [|discriminate].
  destruct (Nat.leb_spec (length (digitsOnly group)) 16); simpl; [|discriminate].
  destruct (luhnCheck _); [|discriminate].
  intros [= <-]. split; [apply digitsOnly_digits | lia].
Qed.

Lemma windowAt_shaped (allDigits candidate : str) (start : nat) :
  Forall (fun c => isDigit c = true) allDigits ->
  windowAt allDigits start = Some candidate -> cardShaped candidate.
Proof.
  intros Hd H. unfold windowAt in H.
  apply firstSome_Some in H. destruct H as (len & Hin & H).
  destruct (luhnCheck _); [|discriminate]. injection H as <-.
  unfold windowLengths in Hin. apply in_rev, in_seq in Hin.
  unfold MAX_CARD_DIGITS in Hin.
  split.
  - unfold slice. apply Forall_firstn_digits, Forall_skipn_digits, Hd.
  - unfold slice. rewrite length_firstn, length_skipn. lia.
Qed.

Lemma extractCardNumber_shaped (rawText : str) :
  extractCardNumber rawText = [] \/ cardShaped (extractCardNumber rawText).
Proof.
  unfold extractCardNumber.
  destruct (firstSome groupDigits _) as [digits|] eqn:Hg.
  - right. apply firstSome_Some in Hg. destruct Hg as (g & _ & Hg).
    eapply groupDigits_shaped, Hg.
  - destruct (firstSome (windowAt _) _) as [candidate|] eqn:Hw; [|left; reflexivity].
    right. apply firstSome_Some in Hw. destruct Hw as (start & _ & Hw).
    eapply windowAt_shaped, Hw. apply digitsOnly_digits.
Qed.

(** C4.  [extractCardNumber] returns the empty string or a string of 13
    to 16 digits, so the scan handler never answers 422 "Card number
    must be 16 digits or less.". *)
Theorem extractCardNumber_at_most_16 :
  (forall rawText : str,
      extractCardNumber rawText = [] \/
      (Forall (fun c => isDigit c = true) (extractCardNumber rawText) /\
       (length (extractCardNumber rawText) <= 16)%nat)) /\
  (forall (buffer : Type) (runVisionOCR : buffer -> OcrOutcome)
          (now scanTime : Z) (req : ScanRequest buffer)
          (scanSessions : gmap string Session),
      fst (scanHandler runVisionOCR now scanTime req scanSessions)
      <> errorJson 422 "Card number must be 16 digits or less.").
Proof.
  split.
  - intro rawText. destruct (extractCardNumber_shaped rawText) as [H|[H1 H2]].
    + left. exact H.
    + right. split; [exact H1 | lia].
  - intros buffer runVisionOCR now scanTime req scanSessions.
    unfold scanHandler.
    destruct (presentId _) as [sessionId|]; [|discriminate].
    destruct (scanSessions !! sessionId) as [session|]; [|discriminate].
    destruct (bool_decide _); [discriminate|].
    destruct (file req) as [buf|]; [|discriminate].
    destruct (runVisionOCR buf) as [message|ocrText]; [discriminate|].
    destruct (isEmpty _); [discriminate|].
    destruct (Nat.ltb_spec MAX_CARD_DIGITS (length (extractCardNumber ocrText)))
      as [Hlong|_]; [|discriminate].
    exfalso. unfold MAX_CARD_DIGITS in Hlong.
    destruct (extractCardNumber_shaped ocrText) as [H|[_ H]].
    + rewrite H in Hlong. simpl in Hlong. lia.
    + lia.
Qed.

(** ** C8: expired sessions and unknown sessions *)

Lemma presentId_Some (sessionId : string) :
  sessionId <> ""%string -> presentId (Some sessionId) = Some sessionId.
Proof.
  intro H. unfold presentId.
  destruct (String.eqb_spec sessionId ""); [contradiction | reflexivity].
Qed.

Lemma cleanup_lookup_live (now : Z) (scanSessions : gmap string Session)
    (sessionId : string) (session : Session) :
  scanSessions !! sessionId = Some session -> now < expiresAt session ->
  cleanupExpiredSessions now scanSessions !! sessionId = Some session.
Proof.
  intros Hs Hlive. unfold cleanupExpiredSessions.
  apply map_lookup_filter_Some. split; [exact Hs | simpl; lia].
Qed.

Lemma cleanup_lookup_expired (now : Z) (scanSessions : gmap string Session)
    (sessionId : string) (session : Session) :
  scanSessions !! sessionId = Some session -> expiresAt session <= now ->
  cleanupExpiredSessions now scanSessions !! sessionId = None.
Proof.
  intros Hs Hexp. unfold cleanupExpiredSessions.
  apply map_lookup_filter_None. right. intros x Hx. simpl.
  rewrite Hs in Hx. injection Hx as <-. lia.
Qed.

Lemma cleanup_lookup_absent (now : Z) (scanSessions : gmap string Session)
    (sessionId : string) :
  scanSessions !! sessionId = None ->
  cleanupExpiredSessions now scanSessions !! sessionId = None.
Proof.
  intros Hs. unfold cleanupExpiredSessions.
  apply map_lookup_filter_None. left. exact Hs.
Qed.

(** An id that names no session is answered 404 by both endpoints. *)
Lemma unknown_session_404 (buffer : Type) (runVisionOCR : buffer -> OcrOutcome)
    (scanSessions : gmap string Session) (sessionId : string) :
  sessionId <> ""%string -> scanSessions !! sessionId = None ->
  (forall now scanTime f,
      scanHandler runVisionOCR now scanTime
        {| scanSessionId := Some sessionId; file := f |} scanSessions
      = (errorJson 404 "Session not found/expired", scanSessions)) /\
  (forall sweepTime now pollTime,
      fst (pollHandler sweepTime now pollTime (Some sessionId) scanSessions)
      = errorJson 404 "Session not found/expired").
Proof.
  intros Hid Hs. split.
  - intros. unfold scanHandler. cbn [scanSessionId file].
    rewrite (presentId_Some _ Hid), Hs. reflexivity.
  - intros. unfold pollHandler. rewrite (presentId_Some _ Hid).
    rewrite (cleanup_lookup_absent _ _ _ Hs). reflexivity.
Qed.

(** C8, as the source has it: on the scan endpoint a session past its
    [expiresAt] that the sweep has not yet removed is answered 410
    "Session expired", while an id that was never created is answered
    404. *)
Lemma expired_scan_differs_from_unknown :
  let scanSessions := oneSession "s1" in
  let ocr := fun _ : unit => OcrText [] in
  let now := 300000 in
  (exists session, scanSessions !! "s1"%string = Some session
                   /\ expiresAt session <= now) /\
  scanSessions !! "s2"%string = None /\
  httpStatus (fst (scanHandler ocr now now
                     {| scanSessionId := Some "s1"%string; file := Some tt |}
                     scanSessions)) = 410%nat /\
  httpStatus (fst (scanHandler ocr now now
                     {| scanSessionId := Some "s2"%string; file := Some tt |}
                     scanSessions)) = 404%nat.
Proof.
  cbv zeta. split.
  - eexists. split; [vm_compute; reflexivity|]. vm_compute. discriminate.
  - repeat split; vm_compute; reflexivity.
Qed.

(** C8.  A session past its [expiresAt] is never served.  The scan
    endpoint answers it 410 "Session expired" and the poll endpoint 404
    (when its sweep removed the session) or 410 (when the session lapsed
    between the sweep and the check); either request leaves the id
    without a session, and an id without a session is answered 404
    "Session not found/expired" by both endpoints, as an id that was
    never created. *)
Theorem expired_session_never_served (buffer : Type)
    (runVisionOCR : buffer -> OcrOutcome)
    (scanSessions : gmap string Session) (sessionId : string)
    (session : Session) (now : Z) :
  sessionId <> ""%string ->
  scanSessions !! sessionId = Some session ->
  expiresAt session <= now ->
  (forall scanTime f,
      let r := scanHandler runVisionOCR now scanTime
                 {| scanSessionId := Some sessionId; file := f |} scanSessions in
      fst r = errorJson 410 "Session expired" /\ snd r !! sessionId = None) /\
  (forall sweepTime pollTime,
      let r := pollHandler sweepTime now pollTime (Some sessionId) scanSessions in
      (fst r = errorJson 404 "Session not found/expired"
       \/ fst r = errorJson 410 "Session expired")
      /\ (fst r = errorJson 404 "Session not found/expired"
          <-> expiresAt session <= sweepTime)
      /\ snd r !! sessionId = None) /\
  (forall later : gmap string Session,
      later !! sessionId = None ->
      (forall now' scanTime f,
          fst (scanHandler runVisionOCR now' scanTime
                 {| scanSessionId := Some sessionId; file := f |} later)
          = errorJson 404 "Session not found/expired") /\
      (forall sweepTime now' pollTime,
          fst (pollHandler sweepTime now' pollTime (Some sessionId) later)
          = errorJson 404 "Session not found/expired")).
Proof.
  intros Hid Hs Hexp. split; [|split].
  - intros scanTime f. cbv zeta. unfold scanHandler. cbn [scanSessionId file].
    rewrite (presentId_Some _ Hid), Hs.
    rewrite bool_decide_eq_true_2 by exact Hexp. simpl.
    split; [reflexivity | apply lookup_delete_eq].
  - intros sweepTime pollTime. cbv zeta. unfold pollHandler.
    rewrite (presentId_Some _ Hid).
    destruct (Z_le_gt_dec (expiresAt session) sweepTime) as [Hswept|Hlive].
    + rewrite (cleanup_lookup_expired _ _ _ _ Hs Hswept). simpl.
      split; [left; reflexivity|]. split; [tauto|].
      apply (cleanup_lookup_expired _ _ _ _ Hs Hswept).
    + rewrite (cleanup_lookup_live _ _ _ _ Hs) by lia.
      rewrite bool_decide_eq_true_2 by exact Hexp. simpl.
      split; [right; reflexivity|]. split; [|apply lookup_delete_eq].
      split; [discriminate | lia].
  - intros later Hl.
    destruct (unknown_session_404 buffer runVisionOCR later sessionId Hid Hl)
      as [Hscan Hpoll].
    split; [|exact Hpoll].
    intros. rewrite Hscan. reflexivity.
Qed.

Lemma expired_session_never_served_witness :
  fst (scanHandler (fun _ : unit => OcrText []) 300000 300000
         {| scanSessionId := Some "s1"%string; file := Some tt |}
         (oneSession "s1"))
  = errorJson 410 "Session expired".
Proof.
  refine (proj1 (proj1 (expired_session_never_served unit
            (fun _ => OcrText []) (oneSession "s1") "s1"
            {| createdAt := 0; expiresAt := SESSION_TTL_MS;
               status := pending; data := None |} 300000 _ _ _)
          300000 (Some tt))).
  - discriminate.
  - vm_compute. reflexivity.
  - vm_compute. discriminate.
Defined.

(** ** C9: the cardholder name *)

Lemma existsb_false {A : Type} (f : A -> bool) (l : list A) (x : A) :
  existsb f l = false -> In x l -> f x = false.
Proof.
  intros He Hx. destruct (f x) eqn:Hf; [|reflexivity].
  assert (existsb f l = true) by (apply existsb_exists; eauto).
  congruence.
Qed.

(** The pieces of a split hold no separator. *)
Lemma splitAcc_no_sep (sep : ascii) (s cur w : str) :
  ~ In sep cur -> In w (splitAcc sep cur s) -> ~ In sep w.
Proof.
  revert cur. induction s as [|c s IH]; intros cur Hcur Hw; simpl in Hw.
  - destruct Hw as [<-|[]]. rewrite <- in_rev. exact Hcur.
  - destruct (Ascii.eqb_spec c sep) as [->|Hne].
    + destruct Hw as [<-|Hw].
      * rewrite <- in_rev. exact Hcur.
      * apply (IH []); [intros [] | exact Hw].
    + apply (IH (c :: cur)); [|exact Hw].
      intros [->|H]; [congruence | contradiction].
Qed.

Lemma splitAcc_word (sep : ascii) (w cur : str) :
  ~ In sep w -> splitAcc sep cur w = [rev cur ++ w].
Proof.
  revert cur. induction w as [|c w IH]; intros cur Hw; simpl.
  - rewrite app_nil_r. reflexivity.
  - destruct (Ascii.eqb_spec c sep) as [->|Hne]; [exfalso; apply Hw; left; reflexivity|].
    rewrite IH by (intro H; apply Hw; right; exact H).
    simpl. rewrite <- app_assoc. reflexivity.
Qed.

Lemma splitAcc_word_sep (sep : ascii) (w cur s : str) :
  ~ In sep w ->
  splitAcc sep cur (w ++ sep :: s) = (rev cur ++ w) :: splitAcc sep [] s.
Proof.
  revert cur. induction w as [|c w IH]; intros cur Hw; simpl.
  - rewrite Ascii.eqb_refl, app_nil_r. reflexivity.
  - destruct (Ascii.eqb_spec c sep) as [->|Hne]; [exfalso; apply Hw; left; reflexivity|].
    rewrite IH by (intro H; apply Hw; right; exact H).
    simpl. rewrite <- app_assoc. reflexivity.
Qed.

(** Splitting a joined list of words gives the words back. *)
Lemma split_join (sep : ascii) (ws : list str) :
  ws <> [] -> Forall (fun w => ~ In sep w) ws ->
  split sep (join [sep] ws) = ws.
Proof.
  unfold split. intros Hne Hws.
  induction Hws as [|w ws Hw Hws IH]; [contradiction|].
  destruct ws as [|w' ws].
  - simpl. apply (splitAcc_word sep w [] Hw).
  - change (join [sep] (w :: w' :: ws)) with (w ++ sep :: join [sep] (w' :: ws)).
    rewrite (splitAcc_word_sep sep w [] _ Hw). simpl rev. simpl app at 1.
    f_equal. apply IH. discriminate.
Qed.

Lemma filter_nonempty (ws : list str) :
  Forall (fun w => w <> []) ws ->
  List.filter (fun w => negb (isEmpty w)) ws = ws.
Proof.
  induction 1 as [|w ws Hw _ IH]; simpl; [reflexivity|].
  destruct w; [contradiction|]. simpl. rewrite IH. reflexivity.
Qed.

Lemma wordsOf_join (ws : list str) :
  ws <> [] -> Forall (fun w => w <> [] /\ ~ In " "%char w) ws ->
  wordsOf (join (lit " ") ws) = ws.
Proof.
  intros Hne Hws. unfold wordsOf.
  change (lit " ") with [" "%char].
  rewrite split_join.
  - apply filter_nonempty. eapply List.Forall_impl; [|exact Hws]. simpl. tauto.
  - exact Hne.
  - eapply List.Forall_impl; [|exact Hws]. simpl. tauto.
Qed.

Lemma wordsOf_words (s w : str) :
  In w (wordsOf s) -> w <> [] /\ ~ In " "%char w.
Proof.
  unfold wordsOf, split. intro H. apply filter_In in H. destruct H as [H Hn].
  split.
  - destruct w; [discriminate | discriminate].
  - eapply splitAcc_no_sep; [|exact H]. intros [].
Qed.

(** What the filter lets through: two to four words, none of them
    blocked, each a non-empty piece without a space. *)
Lemma nameWords_Some (line : str) (words : list str) :
  nameWords line = Some words ->
  (2 <= length words <= 4)%nat /\
  Forall (fun w => has blockedWords w = false) words /\
  Forall (fun w => w <> [] /\ ~ In " "%char w) words.
Proof.
  unfold nameWords.
  destruct (_ || _ || _); [discriminate|].
  destruct (isEmpty' _); [discriminate|].
  set (all := wordsOf (normalizeNameLine line)).
  set (ws := if has removablePrefixes (hd [] all) then tl all else all).
  assert (Hsub : forall w, In w ws -> In w all).
  { intros w. unfold ws. destruct (has removablePrefixes _); [|tauto].
    destruct all; simpl; tauto. }
  destruct ((length ws <? 2)%nat || (4 <? length ws)%nat) eqn:Hlen;
    [discriminate|].
  apply orb_false_elim in Hlen. destruct Hlen as [H2 H4].
  apply Nat.ltb_ge in H2, H4.
  destruct (existsb (fun word => (length word <? 2)%nat || _) ws); [discriminate|].
  destruct (existsb (fun word => has blockedWords word) ws) eqn:Hb; [discriminate|].
  destruct (negb _); [discriminate|].
  intros [= <-]. split; [lia|]. split.
  - apply List.Forall_forall. intros w Hw.
    apply (existsb_false _ _ _ Hb Hw).
  - apply List.Forall_forall. intros w Hw.
    apply (wordsOf_words (normalizeNameLine line)), Hsub, Hw.
Qed.

Lemma nameCandidates_In (lines : list str) (c : str * Z) :
  In c (nameCandidates lines) ->
  exists line words, nameWords line = Some words /\ fst c = join (lit " ") words.
Proof.
  unfold nameCandidates. intro H. apply in_flat_map in H.
  destruct H as ([index line] & _ & H). simpl in H.
  destruct (nameWords line) as [words|] eqn:Hw; [|contradiction].
  destruct H as [<-|[]]. exists line, words. auto.
Qed.

(** The best pair kept by the loop: nothing yet, or one of the
    candidates, with a score that no candidate exceeds. *)
Lemma keepBest_fold (cands : list (str * Z)) (b : best) :
  let b' := fold_left keepBest cands b in
  (b' = b \/ exists c, In c cands /\ b' = {| bestCandidate := fst c;
                                             bestScore := Some (snd c) |}) /\
  (forall c, In c cands -> exists sc, bestScore b' = Some sc /\ snd c <= sc).
Proof.
  revert b. induction cands as [|c cands IH]; intro b; simpl.
  - split; [left; reflexivity | intros c []].
  - destruct (IH (keepBest b c)) as [IH1 IH2]. split.
    + destruct IH1 as [->|(c' & Hin & ->)].
      * unfold keepBest. destruct (betterThan _ _); [right; exists c|left]; auto.
      * right. exists c'. auto.
    + intros c' [<-|Hin]; [|apply IH2, Hin].
      clear IH1 IH2.
      assert (Hk : exists sc, bestScore (keepBest b c) = Some sc /\ snd c <= sc).
      { unfold keepBest, betterThan. destruct (bestScore b) as [sb|] eqn:Hb.
        - destruct (Z.ltb_spec sb (snd c)); simpl.
          + exists (snd c). split; [reflexivity | lia].
          + exists sb. split; [exact Hb | lia].
        - simpl. exists (snd c). split; [reflexivity | lia]. }
      destruct Hk as (sc & Hsc & Hle).
      assert (Hmono : forall l b0 s0, bestScore b0 = Some s0 ->
                exists s1, bestScore (fold_left keepBest l b0) = Some s1 /\ s0 <= s1).
      { clear. induction l as [|x l IHl]; intros b0 s0 H0; simpl.
        - exists s0. split; [exact H0 | lia].
        - unfold keepBest at 2, betterThan. rewrite H0.
          destruct (Z.ltb_spec s0 (snd x)).
          + destruct (IHl {| bestCandidate := fst x; bestScore := Some (snd x) |}
                        (snd x) eq_refl) as (s1 & H1 & H2).
            exists s1. split; [exact H1 | lia].
          + apply IHl, H0. }
      destruct (Hmono cands _ _ Hsc) as (s1 & H1 & H2).
      exists s1. split; [exact H1 | lia].
Qed.

(** Every candidate, winner or not, has two to four words and none of
    them is blocklisted. *)
Lemma nameCandidate_words (lines : list str) (c : str * Z) :
  In c (nameCandidates lines) ->
  (2 <= length (wordsOf (fst c)) <= 4)%nat /\
  Forall (fun w => has blockedWords w = false) (wordsOf (fst c)).
Proof.
  intro Hin.
  destruct (nameCandidates_In _ _ Hin) as (line & words & Hw & ->).
  destruct (nameWords_Some _ _ Hw) as (Hlen & Hblocked & Hshape).
  rewrite wordsOf_join;
    [|destruct words; simpl in Hlen; [lia|discriminate]|exact Hshape].
  split; [lia | exact Hblocked].
Qed.

(** C9.  A line with a single word or with a blocklisted word is no
    candidate, so a non-empty result of [extractCardholderName] has at
    least two words and none of its words is blocklisted; and the result
    is empty whenever no candidate has a strictly positive score. *)
Theorem extractCardholderName_sound (rawText : str) :
  (forall c, In c (nameCandidates (upperLines rawText)) ->
             (2 <= length (wordsOf (fst c)))%nat /\
             Forall (fun w => has blockedWords w = false) (wordsOf (fst c))) /\
  (extractCardholderName rawText <> [] ->
   (2 <= length (wordsOf (extractCardholderName rawText)))%nat /\
   Forall (fun w => has blockedWords w = false)
          (wordsOf (extractCardholderName rawText))) /\
  ((forall c, In c (nameCandidates (upperLines rawText)) -> snd c <= 0) ->
   extractCardholderName rawText = []).
Proof.
  unfold extractCardholderName.
  set (cands := nameCandidates (upperLines rawText)).
  set (init := {| bestCandidate := []; bestScore := None |}).
  destruct (keepBest_fold cands init) as [Hsel Hmax]. cbv zeta in *.
  split; [|split].
  - intros c Hin. destruct (nameCandidate_words _ _ Hin) as [Hlen Hb].
    split; [lia | exact Hb].
  - destruct Hsel as [->|(c & Hin & ->)]; simpl; [congruence|].
    destruct (0 <? snd c); [|congruence]. intros _.
    destruct (nameCandidate_words _ _ Hin) as [Hlen Hb].
    split; [lia | exact Hb].
  - intros Hnone.
    destruct (bestScore (fold_left keepBest cands init)) as [sc|] eqn:Hb;
      [|reflexivity].
    destruct (Z.ltb_spec 0 sc) as [Hpos|]; [|reflexivity].
    exfalso.
    destruct Hsel as [Heq|(c & Hin & Heq)]; rewrite Heq in Hb; simpl in Hb.
    + discriminate.
    + injection Hb as <-. specialize (Hnone c Hin). lia.
Qed.

Lemma extractCardholderName_sound_witness :
  extractCardholderName (lit "AAA AB AB AB
4222222222222") = [].
Proof.
  refine (proj2 (proj2 (extractCardholderName_sound (lit "AAA AB AB AB
4222222222222"))) _).
  intros c Hc. vm_compute in Hc.
  destruct Hc as [<-|[]]. simpl. lia.
Defined.

(** ** C6: the latest of several expiry candidates *)

Section SortHead.

Variable A : Type.
Variable cmp : A -> A -> Z.

Hypothesis cmp_total : forall a b, cmp a b <= 0 \/ cmp b a <= 0.
Hypothesis cmp_trans : forall a b c, cmp a b <= 0 -> cmp b c <= 0 -> cmp a c <= 0.

Lemma insertSorted_In (x y : A) (l : list A) :
  In y (insertSorted cmp x l) <-> y = x \/ In y l.
Proof.
  induction l as [|z l IH]; simpl.
  - intuition.
  - destruct (cmp x z <=? 0); simpl; [intuition|].
    rewrite IH. intuition.
Qed.

Lemma sort_In (y : A) (l : list A) : In y (sort cmp l) <-> In y l.
Proof.
  induction l as [|x l IH]; simpl; [tauto|].
  rewrite insertSorted_In, IH. intuition.
Qed.

(** The first element after sorting compares no greater than any
    element. *)
Lemma sort_head (l : list A) :
  l <> [] ->
  exists m t, sort cmp l = m :: t /\ In m l /\ forall y, In y l -> cmp m y <= 0.
Proof.
  induction l as [|x l IH]; [congruence|]. intros _.
  destruct l as [|x' l'].
  - exists x, []. simpl. split; [reflexivity|]. split; [auto|].
    intros y [<-|[]]. destruct (cmp_total x x); assumption.
  - destruct IH as (m & t & Hs & Hin & Hmin); [discriminate|].
    change (sort cmp (x :: x' :: l')) with (insertSorted cmp x (sort cmp (x' :: l'))).
    rewrite Hs. simpl.
    destruct (Z.leb_spec (cmp x m) 0) as [Hle|Hgt].
    + exists x, (m :: t). split; [reflexivity|]. split; [left; reflexivity|].
      intros y [<-|Hy].
      * destruct (cmp_total x x); assumption.
      * eapply cmp_trans; [exact Hle | apply Hmin, Hy].
    + exists m, (insertSorted cmp x t). split; [reflexivity|].
      split; [right; exact Hin|].
      intros y [<-|Hy]; [|apply Hmin, Hy].
      destruct (cmp_total x m); [lia | assumption].
Qed.

End SortHead.

Lemma compareExpiry_le (a b : candidate) :
  compareExpiry a b <= 0 <-> noEarlier a b.
Proof.
  unfold compareExpiry, noEarlier.
  destruct (Z.eqb_spec (expiryYear (expiry a)) (expiryYear (expiry b))); simpl; lia.
Qed.

Lemma compareExpiry_total (a b : candidate) :
  compareExpiry a b <= 0 \/ compareExpiry b a <= 0.
Proof. rewrite !compareExpiry_le. unfold noEarlier. lia. Qed.

Lemma compareExpiry_trans (a b c : candidate) :
  compareExpiry a b <= 0 -> compareExpiry b c <= 0 -> compareExpiry a c <= 0.
Proof. rewrite !compareExpiry_le. unfold noEarlier. lia. Qed.

(** The comparison reads the expiry values only, not the scores. *)
Lemma compareExpiry_ignores_score (a b a' b' : candidate) :
  expiry a = expiry a' -> expiry b = expiry b' ->
  compareExpiry a b = compareExpiry a' b'.
Proof. unfold compareExpiry. intros -> ->. reflexivity. Qed.

Lemma extractExpiry_several (rawText : str) :
  pairedExpiry (upperLines rawText) = None ->
  (1 < length (expiryCandidates (upperLines rawText)))%nat ->
  exists c, In c (expiryCandidates (upperLines rawText)) /\
            extractExpiry rawText = expiry c /\
            forall c', In c' (expiryCandidates (upperLines rawText)) -> noEarlier c c'.
Proof.
  intros Hp Hlen. unfold extractExpiry. rewrite Hp.
  set (cands := expiryCandidates (upperLines rawText)) in *.
  destruct cands as [|c0 cands'] eqn:Hc; [simpl in Hlen; lia|].
  rewrite <- Hc in *. cbn [isEmpty'].
  assert (Hne : cands <> []) by (rewrite Hc; discriminate).
  replace (isEmpty' cands) with false by (rewrite Hc; reflexivity).
  destruct (Nat.ltb_spec 1 (length cands)); [|lia].
  destruct (sort_head candidate compareExpiry compareExpiry_total
              compareExpiry_trans cands Hne) as (m & t & Hs & Hin & Hmin).
  rewrite Hs. simpl. exists m. split; [exact Hin|]. split; [reflexivity|].
  intros c' Hc'. apply compareExpiry_le, Hmin, Hc'.
Qed.

(** C6, as the source has it: on a line with both a from and a thru
    keyword and two dates, the last date of the line is returned, also
    when the first one is later. *)
Lemma extractExpiry_paired_line_first :
  map expiry (expiryCandidates (upperLines (lit "FROM 09/26 THRU 03/24")))
    = [lit "09/26"; lit "03/24"] /\
  lit "03/24" <> lit "09/26" /\
  extractExpiry (lit "FROM 09/26 THRU 03/24") = lit "03/24".
Proof.
  split; [vm_compute; reflexivity|]. split; [discriminate|].
  vm_compute. reflexivity.
Qed.

Lemma lastExpiry_last (before : list dateMatch) (last : dateMatch) :
  lastExpiry (before ++ [last]) = dm_expiry last.
Proof. unfold lastExpiry. rewrite rev_app_distr. reflexivity. Qed.

Lemma collectDateMatches_nil : collectDateMatches [] = [].
Proof. reflexivity. Qed.

(** The paired case returns at a line exactly when the line is a paired
    FROM/THRU line, and then with the last of the dates it reads. *)
Lemma pairedLine_paired (lines : list str) (index : nat) (dates : list dateMatch) :
  pairedDates lines index dates ->
  pairedLine lines index = Some (lastExpiry dates).
Proof.
  intros (Hfrom & Hthru & Hlen & Hdates). unfold pairedLine.
  rewrite Hfrom, Hthru. cbn [andb].
  destruct Hdates as [->|(Hnone & Hnext & ->)].
  - destruct (Nat.leb_spec 2 (length (collectDateMatches (nth index lines []))));
      [reflexivity | lia].
  - rewrite Hnone. cbn [length isEmpty' andb].
    destruct (Nat.leb_spec 2 0); [lia|].
    destruct (Nat.ltb_spec (index + 1) (length lines)); [|lia].
    destruct (nth (index + 1) lines []) as [|c line] eqn:Hline.
    + rewrite collectDateMatches_nil in Hlen. simpl in Hlen. lia.
    + cbn [isEmpty isEmpty'].
      destruct (Nat.leb_spec 2 (length (collectDateMatches (c :: line))));
        [reflexivity | lia].
Qed.

Lemma pairedLine_Some_paired (lines : list str) (index : nat) (e : str) :
  pairedLine lines index = Some e ->
  exists dates, pairedDates lines index dates.
Proof.
  unfold pairedLine, pairedDates. cbv zeta.
  destruct (test fromKeywordRegex (nth index lines [])); [|discriminate].
  destruct (test thruKeywordRegex (nth index lines [])); [|discriminate].
  cbn [andb].
  destruct (Nat.leb_spec 2 (length (collectDateMatches (nth index lines []))))
    as [Hsame|Hsame].
  - intros _. exists (collectDateMatches (nth index lines [])). auto.
  - destruct (collectDateMatches (nth index lines [])) as [|d ds] eqn:Hd;
      [|discriminate].
    cbn [isEmpty' andb].
    destruct (Nat.ltb_spec (index + 1) (length lines)) as [Hnext|Hnext];
      [|discriminate].
    destruct (nth (index + 1) lines []) as [|c line] eqn:Hline; [discriminate|].
    cbn [isEmpty isEmpty'].
    destruct (Nat.leb_spec 2 (length (collectDateMatches (c :: line))));
      [|discriminate].
    intros _. exists (collectDateMatches (c :: line)).
    repeat split; auto.
Qed.

Lemma firstSome_None_at {A B : Type} (f : A -> option B) (l : list A) (x : A) :
  firstSome f l = None -> In x l -> f x = None.
Proof.
  induction l as [|y l IH]; simpl; [contradiction|].
  destruct (f y) eqn:Hy; [discriminate|].
  intros H [<-|Hin]; [exact Hy | apply IH; assumption].
Qed.

Lemma firstSome_all_None {A B : Type} (f : A -> option B) (l : list A) :
  (forall x, In x l -> f x = None) -> firstSome f l = None.
Proof.
  induction l as [|x l IH]; intro H; [reflexivity|].
  simpl. rewrite (H x (or_introl eq_refl)). apply IH.
  intros y Hy. apply H. right. exact Hy.
Qed.

Lemma firstSome_first {A B : Type} (f : A -> option B) (l1 l2 : list A)
    (x : A) (y : B) :
  (forall z, In z l1 -> f z = None) -> f x = Some y ->
  firstSome f (l1 ++ x :: l2) = Some y.
Proof.
  induction l1 as [|z l1 IH]; intros H Hx; simpl.
  - rewrite Hx. reflexivity.
  - rewrite (H z (or_introl eq_refl)). apply IH; [|exact Hx].
    intros w Hw. apply H. right. exact Hw.
Qed.

(** The first loop returns the last date read at the first paired
    FROM/THRU line. *)
Lemma pairedExpiry_first (lines : list str) (index : nat)
    (before : list dateMatch) (last : dateMatch) :
  (index < length lines)%nat ->
  (forall j dates, (j < index)%nat -> ~ pairedDates lines j dates) ->
  pairedDates lines index (before ++ [last]) ->
  pairedExpiry lines = Some (dm_expiry last).
Proof.
  intros Hindex Hfirst Hpaired. unfold pairedExpiry.
  replace (length lines) with (index + S (length lines - index - 1))%nat by lia.
  rewrite seq_app. cbn [seq]. apply firstSome_first.
  - intros j Hj. apply in_seq in Hj.
    destruct (pairedLine lines j) as [e|] eqn:He; [|reflexivity].
    exfalso. destruct (pairedLine_Some_paired _ _ _ He) as (dates & Hd).
    apply (Hfirst j dates); [lia | exact Hd].
  - cbn [Nat.add]. rewrite (pairedLine_paired _ _ _ Hpaired).
    rewrite lastExpiry_last. reflexivity.
Qed.

Lemma pairedExpiry_None (lines : list str) :
  pairedExpiry lines = None <->
  forall index dates, (index < length lines)%nat -> ~ pairedDates lines index dates.
Proof.
  unfold pairedExpiry. split.
  - intros Hnone index dates Hindex Hpaired.
    assert (Hin : In index (seq 0 (length lines))) by (apply in_seq; lia).
    pose proof (firstSome_None_at _ _ _ Hnone Hin) as H.
    rewrite (pairedLine_paired _ _ _ Hpaired) in H. discriminate.
  - intro Hnone. apply firstSome_all_None. intros index Hin.
    apply in_seq in Hin.
    destruct (pairedLine lines index) as [e|] eqn:He; [|reflexivity].
    exfalso. destruct (pairedLine_Some_paired _ _ _ He) as (dates & Hd).
    apply (Hnone index dates); [lia | exact Hd].
Qed.

(** C6.  When a line is a paired FROM/THRU line, [extractExpiry]
    returns the last of the dates that the paired case reads at the
    first such line.  When no line is one and the text has more than one
    date candidate, it returns the expiry of a candidate that no
    candidate is later than (by year, then by month), whatever the
    scores; so with the candidates 03/24 and 09/26 it returns 09/26. *)
Theorem extractExpiry_latest (rawText : str) :
  let lines := upperLines rawText in
  (forall index before last,
      (index < length lines)%nat ->
      (forall j dates, (j < index)%nat -> ~ pairedDates lines j dates) ->
      pairedDates lines index (before ++ [last]) ->
      extractExpiry rawText = dm_expiry last) /\
  (pairedExpiry lines = None <->
   forall index dates,
     (index < length lines)%nat -> ~ pairedDates lines index dates) /\
  (pairedExpiry lines = None ->
   (1 < length (expiryCandidates lines))%nat ->
   (exists c, In c (expiryCandidates lines) /\
              extractExpiry rawText = expiry c /\
              forall c', In c' (expiryCandidates lines) -> noEarlier c c') /\
   ((forall c, In c (expiryCandidates lines) ->
               expiry c = lit "03/24" \/ expiry c = lit "09/26") ->
    (exists c, In c (expiryCandidates lines) /\ expiry c = lit "09/26") ->
    extractExpiry rawText = lit "09/26")).
Proof.
  cbv zeta. split; [|split].
  - intros index before last Hindex Hfirst Hpaired. unfold extractExpiry.
    rewrite (pairedExpiry_first _ _ _ _ Hindex Hfirst Hpaired). reflexivity.
  - apply pairedExpiry_None.
  - intros Hp Hlen.
    destruct (extractExpiry_several rawText Hp Hlen) as (c & Hin & Hr & Hmax).
    split; [exists c; auto|].
    intros Hall (c' & Hin' & Hc').
    rewrite Hr. destruct (Hall c Hin) as [H|H]; [|exact H].
    exfalso. specialize (Hmax c' Hin'). unfold noEarlier in Hmax.
    rewrite H, Hc' in Hmax. vm_compute in Hmax.
    destruct Hmax as [Hm|[Hm _]]; discriminate.
Qed.

Lemma extractExpiry_latest_witness :
  extractExpiry (lit "03/24 x 09/26") = lit "09/26"
  /\ extractExpiry (lit "VALID FROM 01/20 VALID THRU 01/25") = lit "01/25".
Proof.
  split.
  - refine (proj2 (proj2 (proj2 (extractExpiry_latest (lit "03/24 x 09/26")))
                     _ _) _ _).
    + vm_compute. reflexivity.
    + vm_compute. lia.
    + intros c Hc. vm_compute in Hc.
      destruct Hc as [<-|[<-|[]]]; [left | right]; reflexivity.
    + eexists. split; [vm_compute; right; left; reflexivity | reflexivity].
  - refine (proj1 (extractExpiry_latest
                     (lit "VALID FROM 01/20 VALID THRU 01/25"))
              0%nat [ {| dm_expiry := lit "01/20"; dm_index := 11 |} ]
              {| dm_expiry := lit "01/25"; dm_index := 28 |} _ _ _).
    + vm_compute. lia.
    + intros j dates Hj. lia.
    + unfold pairedDates. cbv zeta.
      split; [vm_compute; reflexivity|].
      split; [vm_compute; reflexivity|].
      split; [simpl; lia|].
      left. vm_compute. reflexivity.
Defined.

(** ** C3: one digit run among noise *)

Lemma digitLike_spec (c : ascii) :
  digitLike c = isDigit c || oneOf "OQDIL|SBZG" (upperChar c).
Proof. each_char c. Qed.

Lemma digit_not_separator (c : ascii) :
  isDigit c = true -> oneOf " -" c = false.
Proof. each_char c. Qed.

Lemma separator_not_digit (c : ascii) :
  oneOf " -" c = true -> isDigit c = false.
Proof. each_char c. Qed.

Lemma digitsOnly_cons_digit (c : ascii) (s : str) :
  isDigit c = true -> digitsOnly (c :: s) = c :: digitsOnly s.
Proof. intro H. unfold digitsOnly, removeClass. simpl. rewrite H. reflexivity. Qed.

Lemma digitsOnly_cons_other (c : ascii) (s : str) :
  isDigit c = false -> digitsOnly (c :: s) = digitsOnly s.
Proof. intro H. unfold digitsOnly, removeClass. simpl. rewrite H. reflexivity. Qed.

Lemma digitsOnly_app (s t : str) :
  digitsOnly (s ++ t) = digitsOnly s ++ digitsOnly t.
Proof. unfold digitsOnly, removeClass. apply List.filter_app. Qed.

Lemma digitsOnly_none (s : str) :
  Forall (fun c => isDigit c = false) s -> digitsOnly s = [].
Proof.
  induction 1 as [|c s Hc _ IH]; [reflexivity|].
  rewrite digitsOnly_cons_other; assumption.
Qed.

(** Behind the last digit the repetition stops: on input without a
    digit in front it matches nothing more. *)
Lemma rep_no_digit (lo hi : nat) (prev : option ascii) (rest : str) :
  (lo <= hi)%nat ->
  Forall (fun c => isDigit c = false) rest ->
  rep lo hi digitUnit accept prev rest
  = if (lo =? 0)%nat then Some (0%nat, []) else None.
Proof.
  intros Hlo Hrest. destruct hi as [|hi].
  - assert (lo = 0%nat) as -> by lia. reflexivity.
  - cbn [rep]. unfold digitUnit at 1, andThen, chr at 1.
    destruct Hrest as [|c rest Hc _].
    + destruct (lo =? 0)%nat; reflexivity.
    + rewrite Hc. destruct (lo =? 0)%nat; reflexivity.
Qed.

(** On a digit run followed by input without digits, the repetition
    takes the whole run (and a separator right behind it), provided the
    run has between [lo] and [hi] digits. *)
Lemma rep_run (n : nat) :
  forall (run rest : str) (lo hi : nat) (prev : option ascii),
    (length run <= n)%nat ->
    isDigitRun run = true ->
    Forall (fun c => isDigit c = false) rest ->
    (lo <= length (digitsOnly run) <= hi)%nat ->
    exists len,
      rep lo hi digitUnit accept prev (run ++ rest) = Some (len, [])
      /\ digitsOnly (firstn len (run ++ rest)) = digitsOnly run.
Proof.
  induction n as [|n IH]; intros run rest lo hi prev Hn Hrun Hrest Hcount.
  - destruct run; [discriminate | simpl in Hn; lia].
  - destruct run as [|d run]; [discriminate|].
    cbn [isDigitRun] in Hrun. apply andb_prop in Hrun. destruct Hrun as [Hd Hrun].
    rewrite (digitsOnly_cons_digit d run Hd) in *. cbn [length] in Hcount.
    destruct hi as [|hi]; [lia|].
    cbn [rep]. unfold digitUnit at 1, andThen, chr at 1.
    cbn [app]. rewrite Hd. unfold opt, alt.
    destruct run as [|c run].
    + (* the last digit of the run *)
      cbn [app]. unfold chr at 1.
      assert (Hk : forall prev' rest',
                 Forall (fun c => isDigit c = false) rest' ->
                 rep (pred lo) hi digitUnit accept prev' rest' = Some (0%nat, [])).
      { intros prev' rest' Hr'. rewrite rep_no_digit by (assumption || simpl in *; lia).
        replace (pred lo =? 0)%nat with true; [reflexivity|].
        symmetry. apply Nat.eqb_eq. simpl in Hcount. lia. }
      destruct Hrest as [|c rest Hc Hrest].
      * rewrite Hk by constructor. exists 1%nat. split; [reflexivity|].
        cbn [firstn]. rewrite digitsOnly_cons_digit by exact Hd. reflexivity.
      * destruct (oneOf " -" c) eqn:Hsep.
        -- rewrite Hk by exact Hrest. exists 2%nat. split; [reflexivity|].
           cbn [firstn]. rewrite digitsOnly_cons_digit by exact Hd.
           rewrite digitsOnly_cons_other by exact Hc. reflexivity.
        -- rewrite Hk by (constructor; assumption).
           exists 1%nat. split; [reflexivity|].
           cbn [firstn]. rewrite digitsOnly_cons_digit by exact Hd. reflexivity.
    + cbn [app]. unfold chr at 1.
      destruct (oneOf " -" c) eqn:Hsep.
      * (* a separator, then the rest of the run *)
        pose proof (separator_not_digit c Hsep) as Hc.
        rewrite (digitsOnly_cons_other c run Hc) in Hcount.
        destruct (IH run rest (pred lo) hi (Some c)) as (len & Hm & Hdig);
          [simpl in Hn; lia | exact Hrun | exact Hrest | lia |].
        rewrite Hm. exists (S (S len)). split; [reflexivity|].
        cbn [firstn]. rewrite digitsOnly_cons_digit by exact Hd.
        rewrite !digitsOnly_cons_other by exact Hc. rewrite Hdig. reflexivity.
      * (* the next digit follows *)
        destruct (IH (c :: run) rest (pred lo) hi (Some d)) as (len & Hm & Hdig);
          [simpl in Hn |- *; lia | exact Hrun | exact Hrest | lia |].
        cbn [app] in Hm, Hdig. rewrite Hm. exists (S len). split; [reflexivity|].
        cbn [firstn]. rewrite digitsOnly_cons_digit by exact Hd.
        rewrite Hdig. reflexivity.
Qed.

Lemma cardGroup_non_digit (prev : option ascii) (c : ascii) (s : str) :
  isDigit c = false -> matchAt cardGroupRegex prev (c :: s) = None.
Proof.
  intro Hc. unfold matchAt, cardGroupRegex. cbn [rep].
  unfold digitUnit at 1, andThen at 1, chr at 1. rewrite Hc. reflexivity.
Qed.

(** The scan passes over noise without a match. *)
Lemma execFrom_noise (pre s : str) :
  Forall (fun c => isDigit c = false) pre ->
  forall prev pos, exists prev',
    execFrom cardGroupRegex 0 prev pos (pre ++ s)
    = execFrom cardGroupRegex 0 prev' (pos + length pre) s.
Proof.
  induction 1 as [|c pre Hc _ IH]; intros prev pos.
  - exists prev. simpl. rewrite Nat.add_0_r. reflexivity.
  - destruct (IH (Some c) (S pos)) as (prev' & Hp). exists prev'.
    cbn [app execFrom]. rewrite (cardGroup_non_digit prev c _ Hc).
    rewrite Hp. f_equal. simpl. lia.
Qed.

Lemma run_normalized (n : nat) :
  forall run, (length run <= n)%nat -> isDigitRun run = true ->
              map normChar run = run.
Proof.
  induction n as [|n IH]; intros run Hn Hrun.
  - destruct run; [discriminate | simpl in Hn; lia].
  - destruct run as [|d run]; [discriminate|].
    cbn [isDigitRun] in Hrun. apply andb_prop in Hrun. destruct Hrun as [Hd Hrun].
    cbn [map]. rewrite (normChar_digit d Hd). f_equal.
    destruct run as [|c run]; [reflexivity|].
    destruct (oneOf " -" c) eqn:Hsep.
    + cbn [map]. rewrite (normChar_separator c Hsep). f_equal.
      apply IH; [simpl in Hn; lia | exact Hrun].
    + apply IH; [simpl in Hn |- *; lia | exact Hrun].
Qed.

Lemma noise_normalized (noise : str) :
  Forall (fun c => digitLike c = false) noise ->
  Forall (fun c => isDigit c = false) (map normChar noise).
Proof.
  induction 1 as [|c noise Hc _ IH]; simpl; constructor; assumption.
Qed.

(** C3, as the source has it: letters that the normalizer reads as
    digits are not noise.  In [OOO4222222222222] the only digit run is
    [4222222222222], of 13 digits and Luhn-valid, and the result is
    [0004222222222222]. *)
Lemma extractCardNumber_lookalike_noise :
  Forall (fun c => isDigit c = false) (lit "OOO") /\
  isDigitRun (lit "4222222222222") = true /\
  length (digitsOnly (lit "4222222222222")) = 13%nat /\
  luhnCheck (digitsOnly (lit "4222222222222")) = true /\
  extractCardNumber (lit "OOO" ++ lit "4222222222222" ++ [])
  = lit "0004222222222222" /\
  extractCardNumber (lit "OOO" ++ lit "4222222222222" ++ [])
  <> digitsOnly (lit "4222222222222").
Proof.
  split; [repeat constructor|].
  repeat split; try (vm_compute; reflexivity).
  vm_compute. discriminate.
Qed.

(** C3.  When the text is one digit run (digits with at most one space
    or dash between consecutive ones) of 13 to 16 digits that passes the
    Luhn check, with noise before and behind it that is ASCII text and
    holds no digit and no letter read as a digit (O Q D I L | S B Z G,
    in either case), [extractCardNumber] returns the digits of the
    run. *)
Theorem extractCardNumber_single_run (pre run post : str) :
  asciiText pre -> asciiText post ->
  Forall (fun c => digitLike c = false) pre ->
  Forall (fun c => digitLike c = false) post ->
  isDigitRun run = true ->
  (13 <= length (digitsOnly run) <= 16)%nat ->
  luhnCheck (digitsOnly run) = true ->
  extractCardNumber (pre ++ run ++ post) = digitsOnly run.
Proof.
  intros _ _ Hpre Hpost Hrun Hlen Hluhn.
  unfold extractCardNumber.
  rewrite normalize_map, !map_app.
  rewrite (run_normalized (length run) run (le_n _) Hrun).
  apply noise_normalized in Hpre, Hpost.
  set (pre' := map normChar pre) in *. set (post' := map normChar post) in *.
  unfold candidateGroups, execAll.
  destruct (execFrom_noise pre' (run ++ post') Hpre None 0%nat) as (prev' & ->).
  destruct (rep_run (length run) run post' 13 16 prev' (le_n _) Hrun Hpost Hlen)
    as (len & Hm & Hdig).
  destruct run as [|d run]; [discriminate|].
  cbn [app execFrom]. unfold matchAt at 1.
  unfold cardGroupRegex.
  cbn [app] in Hm. rewrite Hm.
  cbn [map m_text firstSome].
  unfold groupDigits. cbn [app] in Hdig. rewrite Hdig.
  unfold MAX_CARD_DIGITS.
  destruct (Nat.leb_spec 13 (length (digitsOnly (d :: run)))); [|lia].
  destruct (Nat.leb_spec (length (digitsOnly (d :: run))) 16); [|lia].
  rewrite Hluhn. reflexivity.
Qed.

Lemma extractCardNumber_single_run_witness :
  extractCardNumber (lit "Nr. " ++ lit "4111 1111-1111 1111" ++ lit " (next)")
  = lit "4111111111111111".
Proof.
  apply (extractCardNumber_single_run (lit "Nr. ") (lit "4111 1111-1111 1111")
           (lit " (next)")).
  - repeat constructor.
  - repeat constructor.
  - repeat constructor.
  - repeat constructor.
  - reflexivity.
  - vm_compute. lia.
  - vm_compute. reflexivity.
Defined.

(** * Further properties of the session store and the handlers *)

(** The three ways in which a scan request ends: an error that leaves
    the store alone, the removal of the lapsed session, or the record
    attached to the live session. *)
Lemma scanHandler_cases (buffer : Type) (runVisionOCR : buffer -> OcrOutcome)
    (now scanTime : Z) (req : ScanRequest buffer)
    (scanSessions : gmap string Session) :
  let r := scanHandler runVisionOCR now scanTime req scanSessions in
  (snd r = scanSessions /\
   (httpStatus (fst r) = 400 \/ httpStatus (fst r) = 404 \/
    httpStatus (fst r) = 422 \/ httpStatus (fst r) = 500)%nat)
  \/ (exists sessionId session,
         presentId (scanSessionId req) = Some sessionId /\
         scanSessions !! sessionId = Some session /\
         expiresAt session <= now /\
         r = (errorJson 410 "Session expired", delete sessionId scanSessions))
  \/ (exists sessionId session buf ocrText,
         presentId (scanSessionId req) = Some sessionId /\
         scanSessions !! sessionId = Some session /\
         now < expiresAt session /\
         file req = Some buf /\ runVisionOCR buf = OcrText ocrText /\
         extractCardNumber ocrText <> [] /\
         r = (ok (Scanned "Card scanned successfully"
                    (maskCardNumber (extractCardNumber ocrText))
                    (extractCardholderName ocrText) (extractExpiry ocrText)
                    (detectCardType (extractCardNumber ocrText))),
              <[sessionId := attach session (scanRecord ocrText scanTime)]>
                scanSessions)).
Proof.
  cbv zeta. unfold scanHandler.
  destruct (presentId (scanSessionId req)) as [sessionId|] eqn:Hid;
    [|left; simpl; auto].
  destruct (scanSessions !! sessionId) as [session|] eqn:Hs;
    [|left; simpl; auto].
  case_bool_decide as Hexp.
  { right. left. exists sessionId, session. auto. }
  destruct (file req) as [buf|] eqn:Hf; [|left; simpl; auto].
  destruct (runVisionOCR buf) as [message|ocrText] eqn:Hocr; [left; simpl; auto|].
  destruct (extractCardNumber ocrText) as [|c number] eqn:Hn; [left; simpl; auto|].
  cbn [isEmpty isEmpty'].
  destruct (MAX_CARD_DIGITS <? length (c :: number))%nat; [left; simpl; auto|].
  right. right. exists sessionId, session, buf, ocrText.
  rewrite Hn. repeat split; try assumption; try lia; try discriminate.
  unfold attach, scanRecord. rewrite Hn. reflexivity.
Qed.

(** The ways in which a poll request ends, on the swept store. *)
Lemma pollHandler_cases (sweepTime now pollTime : Z) (sessionId : option string)
    (scanSessions : gmap string Session) :
  let swept := cleanupExpiredSessions sweepTime scanSessions in
  let r := pollHandler sweepTime now pollTime sessionId scanSessions in
  (snd r = swept /\
   (fst r = errorJson 400 "Missing sessionId" \/
    fst r = errorJson 404 "Session not found/expired" \/
    fst r = ok Pending \/
    exists id session record t,
      presentId sessionId = Some id /\ swept !! id = Some session /\
      now < expiresAt session /\
      status session = ready /\ data session = Some record /\
      deliveredAt record = Some t /\ fst r = ok (Ready record)))
  \/ (exists id session,
         presentId sessionId = Some id /\ swept !! id = Some session /\
         expiresAt session <= now /\
         r = (errorJson 410 "Session expired", delete id swept))
  \/ (exists id session record,
         presentId sessionId = Some id /\ swept !! id = Some session /\
         now < expiresAt session /\
         status session = ready /\ data session = Some record /\
         deliveredAt record = None /\
         r = (ok (Ready (delivered record pollTime)),
              <[id := attach session (delivered record pollTime)]> swept)).
Proof.
  cbv zeta. unfold pollHandler.
  set (swept := cleanupExpiredSessions sweepTime scanSessions).
  destruct (presentId sessionId) as [id|] eqn:Hid; [|left; simpl; auto].
  destruct (swept !! id) as [session|] eqn:Hs; [|left; simpl; auto].
  case_bool_decide as Hexp.
  { right. left. exists id, session. auto. }
  destruct (status session) eqn:Hst; [left; simpl; auto|].
  destruct (data session) as [record|] eqn:Hd; [|left; simpl; auto].
  destruct (deliveredAt record) as [t|] eqn:Hdel.
  - left. simpl. split; [reflexivity|]. right. right. right.
    exists id, session, record, t. repeat split; auto; lia.
  - right. right. exists id, session, record.
    repeat split; auto; lia.
Qed.

Lemma storeInvariant_empty : storeInvariant ∅.
Proof. intros sessionId session H. rewrite lookup_empty in H. discriminate. Qed.

Lemma storeInvariant_cleanup (now : Z) (scanSessions : gmap string Session) :
  storeInvariant scanSessions ->
  storeInvariant (cleanupExpiredSessions now scanSessions).
Proof.
  intros Hinv sessionId session H. unfold cleanupExpiredSessions in H.
  apply map_lookup_filter_Some in H. destruct H as [H _]. apply (Hinv _ _ H).
Qed.

Lemma storeInvariant_delete (sessionId : string)
    (scanSessions : gmap string Session) :
  storeInvariant scanSessions -> storeInvariant (delete sessionId scanSessions).
Proof.
  intros Hinv id session H. apply lookup_delete_Some in H.
  destruct H as [_ H]. apply (Hinv _ _ H).
Qed.

Lemma storeInvariant_insert (sessionId : string) (session : Session)
    (scanSessions : gmap string Session) :
  storeInvariant scanSessions ->
  (status session = ready <-> data session <> None) ->
  (forall r, data session = Some r -> recordValid r) ->
  storeInvariant (<[sessionId := session]> scanSessions).
Proof.
  intros Hinv H1 H2 id s H. apply lookup_insert_Some in H.
  destruct H as [[_ <-]|[_ H]]; [split; assumption | apply (Hinv _ _ H)].
Qed.

Lemma storeInvariant_create (sweepTime createdAt : Z) (sessionId : string)
    (scanSessions : gmap string Session) :
  storeInvariant scanSessions ->
  storeInvariant (createSession sweepTime createdAt sessionId scanSessions).
Proof.
  intro Hinv. unfold createSession. apply storeInvariant_insert.
  - apply storeInvariant_cleanup, Hinv.
  - simpl. split; [discriminate | congruence].
  - simpl. discriminate.
Qed.

(** * Further properties of the card number extractor *)

Lemma firstSome_None {A B : Type} (f : A -> option B) (l : list A) (x : A) :
  firstSome f l = None -> In x l -> f x = None.
Proof.
  induction l as [|y l IH]; simpl; [contradiction|].
  destruct (f y) eqn:Hy; [discriminate|].
  intros H [<-|Hin]; [exact Hy | apply IH; assumption].
Qed.

(** The text of a match is a piece of the input. *)
Lemma execFrom_piece (p : pattern) (s : str) :
  forall skip prev pos m,
    In m (execFrom p skip prev pos s) ->
    exists a b, s = a ++ m_text m ++ b.
Proof.
  induction s as [|c s IH]; intros skip prev pos m Hm.
  - destruct skip; [|contradiction]. cbn [execFrom] in Hm.
    destruct (matchAt p prev []) as [[n caps]|]; [|contradiction].
    destruct Hm as [<-|[]]. exists [], []. cbn [m_text].
    rewrite firstn_nil. reflexivity.
  - assert (Htail : forall skip' prev' pos',
               In m (execFrom p skip' prev' pos' s) ->
               exists a b, c :: s = a ++ m_text m ++ b).
    { intros skip' prev' pos' H. destruct (IH _ _ _ _ H) as (a & b & ->).
      exists (c :: a), b. reflexivity. }
    destruct skip as [|k]; cbn [execFrom] in Hm; [|eapply Htail, Hm].
    destruct (matchAt p prev (c :: s)) as [[n caps]|]; [|eapply Htail, Hm].
    destruct Hm as [<-|Hm]; [|eapply Htail, Hm].
    exists [], (skipn n (c :: s)). cbn [m_text app].
    symmetry. apply firstn_skipn.
Qed.

Lemma slice_middle (a g b : str) :
  slice (length a) (length a + length g) (a ++ g ++ b) = g.
Proof.
  unfold slice. rewrite List.skipn_app, List.skipn_all, Nat.sub_diag.
  change (skipn 0 (g ++ b)) with (g ++ b). cbn [app].
  replace (length a + length g - length a)%nat with (length g) by lia.
  rewrite List.firstn_app, List.firstn_all, Nat.sub_diag. cbn [firstn].
  apply app_nil_r.
Qed.

Lemma groupDigits_window (compactText group digits : str) :
  In group (candidateGroups compactText) ->
  groupDigits group = Some digits ->
  exists start, validWindow (digitsOnly compactText) start (length digits)
                /\ digits = slice start (start + length digits)
                              (digitsOnly compactText).
Proof.
  intros Hin Hg. unfold candidateGroups in Hin. apply in_map_iff in Hin.
  destruct Hin as (m & <- & Hm). unfold execAll in Hm.
  destruct (execFrom_piece _ _ _ _ _ _ Hm) as (a & b & Hs).
  destruct (groupDigits_shaped _ _ Hg) as [_ Hlen].
  unfold groupDigits in Hg.
  destruct (luhnCheck (digitsOnly (m_text m))) eqn:Hluhn;
    [|rewrite andb_false_r in Hg; discriminate].
  destruct (_ && _) in Hg; [|discriminate]. injection Hg as <-.
  exists (length (digitsOnly a)).
  unfold validWindow. rewrite Hs, !digitsOnly_app, !slice_middle.
  split; [|reflexivity]. split; [exact Hlen|]. split; [|exact Hluhn].
  rewrite !length_app. lia.
Qed.

Lemma windowAt_window (allDigits candidate : str) (start : nat) :
  windowAt allDigits start = Some candidate ->
  validWindow allDigits start (length candidate)
  /\ candidate = slice start (start + length candidate) allDigits.
Proof.
  intro H. unfold windowAt in H.
  apply firstSome_Some in H. destruct H as (len & Hin & H).
  destruct (luhnCheck (slice start (start + len) allDigits)) eqn:Hluhn;
    [|discriminate].
  injection H as <-.
  unfold windowLengths in Hin. apply in_rev, in_seq in Hin.
  unfold MAX_CARD_DIGITS in Hin.
  assert (Hl : length (slice start (start + len) allDigits) = len).
  { unfold slice. rewrite length_firstn, length_skipn. lia. }
  rewrite Hl. split; [|reflexivity].
  split; [lia|]. split; [lia | exact Hluhn].
Qed.

(** A non-empty result is a Luhn-valid window of the digit stream. *)
Lemma extractCardNumber_found (rawText : str) :
  extractCardNumber rawText <> [] ->
  exists start,
    validWindow (digitsOnly (normalizeDigitLikeText rawText)) start
                (length (extractCardNumber rawText))
    /\ extractCardNumber rawText
       = slice start (start + length (extractCardNumber rawText))
           (digitsOnly (normalizeDigitLikeText rawText)).
Proof.
  unfold extractCardNumber.
  destruct (firstSome groupDigits _) as [digits|] eqn:Hg.
  - intros _. apply firstSome_Some in Hg. destruct Hg as (g & Hin & Hg).
    eapply groupDigits_window; eassumption.
  - destruct (firstSome (windowAt _) _) as [candidate|] eqn:Hw; [|congruence].
    intros _. apply firstSome_Some in Hw. destruct Hw as (start & _ & Hw).
    exists start. apply windowAt_window, Hw.
Qed.

Lemma extractCardNumber_luhn (rawText : str) :
  extractCardNumber rawText <> [] -> luhnCheck (extractCardNumber rawText) = true.
Proof.
  intro H. destruct (extractCardNumber_found rawText H) as (start & Hw & Heq).
  destruct Hw as (_ & _ & Hluhn). rewrite Heq at 1. exact Hluhn.
Qed.

(** The sliding window misses no Luhn-valid window. *)
Lemma window_search_complete (allDigits : str) (start len : nat) :
  validWindow allDigits start len ->
  firstSome (windowAt allDigits) (windowStarts allDigits) <> None.
Proof.
  intros (Hlen & Hfit & Hluhn) Hnone.
  assert (Hs : In start (windowStarts allDigits)).
  { unfold windowStarts. apply in_seq. lia. }
  pose proof (firstSome_None _ _ _ Hnone Hs) as Hw. unfold windowAt in Hw.
  assert (Hl : In len (windowLengths
                         (Nat.min MAX_CARD_DIGITS (length allDigits - start)))).
  { unfold windowLengths, MAX_CARD_DIGITS. rewrite <- in_rev. apply in_seq. lia. }
  pose proof (firstSome_None _ _ _ Hw Hl) as Hc. simpl in Hc.
  rewrite Hluhn in Hc. discriminate.
Qed.

Lemma normChar_upper (c : ascii) : normChar (upperChar c) = normChar c.
Proof. each_char c. Qed.

Lemma digitLike_count (text : str) :
  length (digitsOnly (map normChar text)) = length (List.filter digitLike text).
Proof.
  unfold digitsOnly, removeClass, digitLike.
  induction text as [|c text IH]; simpl; [reflexivity|].
  destruct (isDigit (normChar c)); simpl; rewrite IH; reflexivity.
Qed.

(** X1.  A non-empty result of [extractCardNumber] passes the Luhn check
    and is a run of 13 to 16 consecutive digits of the digit stream of
    the normalized text. *)
Theorem extractCardNumber_valid_window (rawText : str) :
  extractCardNumber rawText <> [] ->
  luhnCheck (extractCardNumber rawText) = true /\
  (13 <= length (extractCardNumber rawText) <= 16)%nat /\
  exists before after,
    digitsOnly (normalizeDigitLikeText rawText)
    = before ++ extractCardNumber rawText ++ after.
Proof.
  intro H. split; [apply extractCardNumber_luhn, H|].
  destruct (extractCardNumber_found rawText H) as (start & Hw & Heq).
  destruct Hw as (Hlen & Hfit & _). split; [exact Hlen|].
  set (all := digitsOnly (normalizeDigitLikeText rawText)) in *.
  exists (firstn start all),
         (skipn (length (extractCardNumber rawText)) (skipn start all)).
  rewrite Heq at 1. unfold slice.
  replace (start + length (extractCardNumber rawText) - start)%nat
    with (length (extractCardNumber rawText)) by lia.
  rewrite firstn_skipn, firstn_skipn. reflexivity.
Qed.

Lemma extractCardNumber_valid_window_witness :
  luhnCheck (extractCardNumber (lit "no 4111 1111 1111 1111 x")) = true.
Proof.
  apply (extractCardNumber_valid_window (lit "no 4111 1111 1111 1111 x")).
  vm_compute. discriminate.
Defined.

(** X2.  The result of [extractCardNumber] is empty exactly when the
    digit stream of the normalized text has no Luhn-valid window of 13
    to 16 consecutive digits. *)
Theorem extractCardNumber_empty_iff (rawText : str) :
  extractCardNumber rawText = [] <->
  forall start len,
    ~ validWindow (digitsOnly (normalizeDigitLikeText rawText)) start len.
Proof.
  split.
  - intros Hempty start len Hw.
    apply window_search_complete in Hw. apply Hw.
    unfold extractCardNumber in Hempty.
    destruct (firstSome groupDigits _) as [digits|] eqn:Hg.
    + apply firstSome_Some in Hg. destruct Hg as (g & _ & Hg).
      apply groupDigits_shaped in Hg. destruct Hg as [_ Hlen].
      rewrite Hempty in Hlen. simpl in Hlen. lia.
    + destruct (firstSome (windowAt _) _) as [candidate|] eqn:Hw'; [|reflexivity].
      apply firstSome_Some in Hw'. destruct Hw' as (st & _ & Hw').
      apply windowAt_shaped in Hw'; [|apply digitsOnly_digits].
      destruct Hw' as [_ Hlen]. rewrite Hempty in Hlen. simpl in Hlen. lia.
  - intro Hnone.
    destruct (extractCardNumber rawText) as [|c number] eqn:Hr; [reflexivity|].
    exfalso.
    destruct (extractCardNumber_found rawText) as (start & Hw & _);
      [rewrite Hr; discriminate|].
    apply (Hnone _ _ Hw).
Qed.

(** X3.  An ASCII text with fewer than 13 characters that are digits or
    are read as digits yields no card number. *)
Theorem extractCardNumber_too_few_digits (rawText : str) :
  asciiText rawText ->
  (length (List.filter digitLike rawText) < 13)%nat ->
  extractCardNumber rawText = [].
Proof.
  intros _ Hfew.
  destruct (extractCardNumber rawText) as [|c number] eqn:Hr; [reflexivity|].
  exfalso.
  destruct (extractCardNumber_found rawText) as (start & Hw & _);
    [rewrite Hr; discriminate|].
  destruct Hw as (Hlen & Hfit & _).
  rewrite normalize_map, digitLike_count in Hfit. lia.
Qed.

Lemma extractCardNumber_too_few_digits_witness :
  extractCardNumber (lit "4111 1111 1111") = [].
Proof.
  apply (extractCardNumber_too_few_digits (lit "4111 1111 1111")).
  - repeat constructor.
  - vm_compute. lia.
Defined.

(** X4.  [extractCardNumber] reads the normalized text only: the text,
    its upper-case form and its normalized form give the same result. *)
Theorem extractCardNumber_normalized (rawText : str) :
  extractCardNumber (normalizeDigitLikeText rawText) = extractCardNumber rawText
  /\ extractCardNumber (toUpperCase rawText) = extractCardNumber rawText.
Proof.
  assert (H1 : normalizeDigitLikeText (normalizeDigitLikeText rawText)
               = normalizeDigitLikeText rawText).
  { rewrite !normalize_map, map_map. apply map_ext. intro c. apply normChar_idem. }
  assert (H2 : normalizeDigitLikeText (toUpperCase rawText)
               = normalizeDigitLikeText rawText).
  { rewrite !normalize_map. unfold toUpperCase. rewrite map_map.
    apply map_ext. intro c. apply normChar_upper. }
  unfold extractCardNumber. rewrite H1, H2. split; reflexivity.
Qed.

(** * Further properties of the handlers *)

Lemma scanRecord_valid (ocrText : str) (scanTime : Z) :
  extractCardNumber ocrText <> [] -> recordValid (scanRecord ocrText scanTime).
Proof.
  intro H. unfold recordValid, scanRecord. cbn.
  destruct (extractCardNumber_shaped ocrText) as [He|Hs]; [contradiction|].
  repeat split; try apply Hs. apply extractCardNumber_luhn, H.
Qed.

Lemma storeInvariant_scan (buffer : Type) (runVisionOCR : buffer -> OcrOutcome)
    (now scanTime : Z) (req : ScanRequest buffer)
    (scanSessions : gmap string Session) :
  storeInvariant scanSessions ->
  storeInvariant (snd (scanHandler runVisionOCR now scanTime req scanSessions)).
Proof.
  intro Hinv.
  destruct (scanHandler_cases buffer runVisionOCR now scanTime req scanSessions)
    as [[-> _]|[(id & s & _ & _ & _ & ->)|(id & s & buf & text & _ & _ & _ & _ & _ & Hn & ->)]];
    cbn [snd].
  - exact Hinv.
  - apply storeInvariant_delete, Hinv.
  - apply storeInvariant_insert; [exact Hinv | |].
    + simpl. split; [discriminate | reflexivity].
    + simpl. intros r [= <-]. apply scanRecord_valid, Hn.
Qed.

Lemma storeInvariant_poll (sweepTime now pollTime : Z) (sessionId : option string)
    (scanSessions : gmap string Session) :
  storeInvariant scanSessions ->
  storeInvariant (snd (pollHandler sweepTime now pollTime sessionId scanSessions)).
Proof.
  intro Hinv. apply (storeInvariant_cleanup sweepTime) in Hinv.
  destruct (pollHandler_cases sweepTime now pollTime sessionId scanSessions)
    as [[-> _]|[(id & s & _ & _ & _ & ->)|(id & s & record & _ & Hs & _ & _ & Hd & _ & ->)]];
    cbn [snd].
  - exact Hinv.
  - apply storeInvariant_delete, Hinv.
  - apply storeInvariant_insert; [exact Hinv | |].
    + simpl. split; [discriminate | reflexivity].
    + simpl. intros r [= <-].
      destruct (Hinv _ _ Hs) as [_ Hvalid]. apply (Hvalid _ Hd).
Qed.

(** X5.  The store invariant is kept by every operation: if every
    session has a record exactly when it is ready, and every record
    holds a Luhn-valid number of 13 to 16 digits with its network and
    its mask, then the same holds after a sweep, a session creation, a
    scan request and a poll request. *)
Theorem storeInvariant_preserved (scanSessions : gmap string Session) :
  storeInvariant scanSessions ->
  (forall now, storeInvariant (cleanupExpiredSessions now scanSessions)) /\
  (forall sweepTime createdAt sessionId baseUrl toDataURL,
      storeInvariant (snd (sessionHandler sweepTime createdAt sessionId baseUrl
                             toDataURL scanSessions))) /\
  (forall (buffer : Type) (runVisionOCR : buffer -> OcrOutcome) now scanTime req,
      storeInvariant (snd (scanHandler runVisionOCR now scanTime req scanSessions))) /\
  (forall sweepTime now pollTime sessionId,
      storeInvariant (snd (pollHandler sweepTime now pollTime sessionId
                             scanSessions))).
Proof.
  intro Hinv. split; [|split; [|split]].
  - intro now. apply storeInvariant_cleanup, Hinv.
  - intros. unfold sessionHandler.
    destruct (isEmpty baseUrl); [apply storeInvariant_create, Hinv|].
    destruct (toDataURL _); apply storeInvariant_create, Hinv.
  - intros. apply storeInvariant_scan, Hinv.
  - intros. apply storeInvariant_poll, Hinv.
Qed.

Lemma storeInvariant_preserved_witness :
  storeInvariant
    (snd (scanHandler (fun _ : unit => OcrText (lit "4111 1111 1111 1111"))
            1000 1001 {| scanSessionId := Some "s1"%string; file := Some tt |}
            (oneSession "s1"))).
Proof.
  refine (proj1 (proj2 (proj2 (storeInvariant_preserved (oneSession "s1") _)))
            unit _ 1000 1001 _).
  unfold oneSession. apply storeInvariant_create, storeInvariant_empty.
Defined.

(** X6.  A scan or a poll request never creates a session and never
    changes the creation or the expiry time of one: every session of
    the store after the request is a session of the store before it,
    with the same [createdAt] and [expiresAt]. *)
Theorem handlers_keep_lifetimes (buffer : Type)
    (runVisionOCR : buffer -> OcrOutcome) (scanSessions : gmap string Session)
    (id : string) (session' : Session) :
  (forall now scanTime req,
      snd (scanHandler runVisionOCR now scanTime req scanSessions) !! id
      = Some session' ->
      exists session, scanSessions !! id = Some session
                      /\ createdAt session' = createdAt session
                      /\ expiresAt session' = expiresAt session) /\
  (forall sweepTime now pollTime sessionId,
      snd (pollHandler sweepTime now pollTime sessionId scanSessions) !! id
      = Some session' ->
      exists session, scanSessions !! id = Some session
                      /\ createdAt session' = createdAt session
                      /\ expiresAt session' = expiresAt session).
Proof.
  split.
  - intros now scanTime req H.
    destruct (scanHandler_cases buffer runVisionOCR now scanTime req scanSessions)
      as [[Heq _]|[(i & s & _ & _ & _ & Heq)|(i & s & buf & text & _ & Hs & _ & _ & _ & _ & Heq)]];
      rewrite Heq in H; cbn [snd] in H.
    + exists session'. auto.
    + apply lookup_delete_Some in H. destruct H as [_ H]. exists session'. auto.
    + apply lookup_insert_Some in H. destruct H as [[<- <-]|[_ H]].
      * exists s. auto.
      * exists session'. auto.
  - intros sweepTime now pollTime sessionId H.
    assert (Hswept : forall s, cleanupExpiredSessions sweepTime scanSessions !! id
                               = Some s -> scanSessions !! id = Some s).
    { intros s Hs. unfold cleanupExpiredSessions in Hs.
      apply map_lookup_filter_Some in Hs. apply Hs. }
    destruct (pollHandler_cases sweepTime now pollTime sessionId scanSessions)
      as [[Heq _]|[(i & s & _ & _ & _ & Heq)|(i & s & record & _ & Hs & _ & _ & _ & _ & Heq)]];
      rewrite Heq in H; cbn [snd] in H.
    + exists session'. auto.
    + apply lookup_delete_Some in H. destruct H as [_ H]. exists session'. auto.
    + apply lookup_insert_Some in H. destruct H as [[<- <-]|[_ H]].
      * exists s. auto.
      * exists session'. auto.
Qed.

(** X7.  A scan request touches the session it names and no other:
    under every other id the store holds after the request what it held
    before. *)
Theorem scanHandler_other_sessions (buffer : Type)
    (runVisionOCR : buffer -> OcrOutcome) (now scanTime : Z)
    (req : ScanRequest buffer) (scanSessions : gmap string Session)
    (other : string) :
  scanSessionId req <> Some other ->
  snd (scanHandler runVisionOCR now scanTime req scanSessions) !! other
  = scanSessions !! other.
Proof.
  intro Hother.
  assert (Hne : forall i, presentId (scanSessionId req) = Some i -> i <> other).
  { intros i Hi ->. apply Hother. unfold presentId in Hi.
    destruct (scanSessionId req) as [j|]; [|discriminate].
    destruct (String.eqb j ""); [discriminate|]. exact Hi. }
  destruct (scanHandler_cases buffer runVisionOCR now scanTime req scanSessions)
    as [[-> _]|[(i & s & Hi & _ & _ & ->)|(i & s & buf & text & Hi & _ & _ & _ & _ & _ & ->)]];
    cbn [snd].
  - reflexivity.
  - apply lookup_delete_ne, Hne, Hi.
  - apply lookup_insert_ne, Hne, Hi.
Qed.

Lemma scanHandler_other_sessions_witness :
  snd (scanHandler (fun _ : unit => OcrText (lit "4111 1111 1111 1111"))
         1000 1001 {| scanSessionId := Some "s2"%string; file := Some tt |}
         (createSession 0 0 "s2" (oneSession "s1"))) !! "s1"%string
  = createSession 0 0 "s2" (oneSession "s1") !! "s1"%string.
Proof.
  apply (scanHandler_other_sessions unit). discriminate.
Defined.

(** X8.  A scan request that is answered with an error other than 410
    (400, 404, 422 or 500: missing id or image, unknown session, no card
    number found, recognizer failure) leaves the store as it was. *)
Theorem scanHandler_error_keeps_store (buffer : Type)
    (runVisionOCR : buffer -> OcrOutcome) (now scanTime : Z)
    (req : ScanRequest buffer) (scanSessions : gmap string Session) :
  httpStatus (fst (scanHandler runVisionOCR now scanTime req scanSessions))
  <> 200%nat ->
  httpStatus (fst (scanHandler runVisionOCR now scanTime req scanSessions))
  <> 410%nat ->
  snd (scanHandler runVisionOCR now scanTime req scanSessions) = scanSessions.
Proof.
  intros H200 H410.
  destruct (scanHandler_cases buffer runVisionOCR now scanTime req scanSessions)
    as [[Heq _]|[(i & s & _ & _ & _ & Heq)|(i & s & buf & text & _ & _ & _ & _ & _ & _ & Heq)]].
  - exact Heq.
  - rewrite Heq in H410. contradiction H410. reflexivity.
  - rewrite Heq in H200. contradiction H200. reflexivity.
Qed.

Lemma scanHandler_error_keeps_store_witness :
  snd (scanHandler (fun _ : unit => OcrText (lit "no number here"))
         1000 1001 {| scanSessionId := Some "s1"%string; file := Some tt |}
         (oneSession "s1"))
  = oneSession "s1".
Proof.
  apply (scanHandler_error_keeps_store unit); vm_compute; discriminate.
Defined.

(** X9.  A ready session never goes back to pending: after any scan or
    poll request, a session that was ready is ready or gone. *)
Theorem ready_stays_ready (buffer : Type) (runVisionOCR : buffer -> OcrOutcome)
    (scanSessions : gmap string Session) (id : string)
    (session session' : Session) :
  scanSessions !! id = Some session ->
  status session = ready ->
  (forall now scanTime req,
      snd (scanHandler runVisionOCR now scanTime req scanSessions) !! id
      = Some session' -> status session' = ready) /\
  (forall sweepTime now pollTime sessionId,
      snd (pollHandler sweepTime now pollTime sessionId scanSessions) !! id
      = Some session' -> status session' = ready).
Proof.
  intros Hs Hready. split.
  - intros now scanTime req H.
    destruct (scanHandler_cases buffer runVisionOCR now scanTime req scanSessions)
      as [[Heq _]|[(i & s & _ & _ & _ & Heq)|(i & s & buf & text & _ & _ & _ & _ & _ & _ & Heq)]];
      rewrite Heq in H; cbn [snd] in H.
    + congruence.
    + apply lookup_delete_Some in H. destruct H as [_ H]. congruence.
    + apply lookup_insert_Some in H. destruct H as [[_ <-]|[_ H]];
        [reflexivity | congruence].
  - intros sweepTime now pollTime sessionId H.
    assert (Hswept : forall s, cleanupExpiredSessions sweepTime scanSessions !! id
                               = Some s -> s = session).
    { intros s H'. unfold cleanupExpiredSessions in H'.
      apply map_lookup_filter_Some in H'. destruct H' as [H' _]. congruence. }
    destruct (pollHandler_cases sweepTime now pollTime sessionId scanSessions)
      as [[Heq _]|[(i & s & _ & _ & _ & Heq)|(i & s & record & _ & _ & _ & _ & _ & _ & Heq)]];
      rewrite Heq in H; cbn [snd] in H.
    + apply Hswept in H. congruence.
    + apply lookup_delete_Some in H. destruct H as [_ H].
      apply Hswept in H. congruence.
    + apply lookup_insert_Some in H. destruct H as [[_ <-]|[_ H]];
        [reflexivity|]. apply Hswept in H. congruence.
Qed.

Lemma handlers_keep_lifetimes_witness :
  exists session,
    oneSession "s1" !! "s1"%string = Some session /\
    SESSION_TTL_MS = expiresAt session.
Proof.
  destruct (proj1 (handlers_keep_lifetimes unit
                     (fun _ => OcrText (lit "4111 1111 1111 1111"))
                     (oneSession "s1") "s1"
                     (attach {| createdAt := 0; expiresAt := SESSION_TTL_MS;
                                status := pending; data := None |}
                             (scanRecord (lit "4111 1111 1111 1111") 1001)))
              1000 1001 {| scanSessionId := Some "s1"%string; file := Some tt |})
    as (session & Hs & _ & He).
  - vm_compute. reflexivity.
  - exists session. split; [exact Hs | exact He].
Defined.

Lemma ready_stays_ready_witness :
  exists session',
    snd (pollHandler 2000 2000 2001 (Some "s1"%string) scannedStore)
      !! "s1"%string = Some session'
    /\ status session' = ready.
Proof.
  set (fresh := {| createdAt := 0; expiresAt := SESSION_TTL_MS;
                   status := pending; data := None |}).
  set (record := scanRecord (lit "4111 1111 1111 1111") 1001).
  exists (attach fresh (delivered record 2001)).
  split; [vm_compute; reflexivity|].
  refine (proj2 (ready_stays_ready unit (fun _ => OcrText [])
                   scannedStore "s1" (attach fresh record)
                   (attach fresh (delivered record 2001)) _ _)
            2000 2000 2001 (Some "s1"%string) _).
  - vm_compute. reflexivity.
  - reflexivity.
  - vm_compute. reflexivity.
Defined.

Lemma cleanup_lookup (now : Z) (scanSessions : gmap string Session)
    (id : string) (session : Session) :
  cleanupExpiredSessions now scanSessions !! id = Some session
  <-> scanSessions !! id = Some session /\ now < expiresAt session.
Proof.
  unfold cleanupExpiredSessions. rewrite map_lookup_filter_Some. simpl.
  split; intros [H1 H2]; (split; [exact H1 | lia]).
Qed.

(** X10.  The sweep keeps exactly the sessions that have not lapsed, and
    sweeps compose: a sweep at one time followed by a sweep at another
    is the sweep at the later of the two times. *)
Theorem cleanupExpiredSessions_compose (t1 t2 : Z)
    (scanSessions : gmap string Session) :
  (forall id session,
      cleanupExpiredSessions t1 scanSessions !! id = Some session
      <-> scanSessions !! id = Some session /\ t1 < expiresAt session) /\
  cleanupExpiredSessions t2 (cleanupExpiredSessions t1 scanSessions)
  = cleanupExpiredSessions (Z.max t1 t2) scanSessions.
Proof.
  split; [intros; apply cleanup_lookup|].
  apply map_eq. intro id. apply option_eq. intro session.
  rewrite !cleanup_lookup. split.
  - intros ([H1 H2] & H3). split; [exact H1 | lia].
  - intros (H1 & H2). split; [split|]; [exact H1 | lia | lia].
Qed.

(** X11.  A session that was just created is reported pending: a poll
    for its id whose clock readings are before [createdAt] plus the TTL
    answers 200 with status pending. *)
Theorem create_then_poll_pending (sweepTime createdAt : Z) (sessionId : string)
    (scanSessions : gmap string Session) (sweepTime' now pollTime : Z) :
  sessionId <> ""%string ->
  sweepTime' < createdAt + SESSION_TTL_MS ->
  now < createdAt + SESSION_TTL_MS ->
  fst (pollHandler sweepTime' now pollTime (Some sessionId)
         (createSession sweepTime createdAt sessionId scanSessions))
  = ok Pending.
Proof.
  intros Hid Hsweep Hnow. unfold pollHandler.
  rewrite (presentId_Some _ Hid).
  set (session := {| createdAt := createdAt;
                     expiresAt := createdAt + SESSION_TTL_MS;
                     status := pending; data := None |}).
  assert (Hs : cleanupExpiredSessions sweepTime'
                 (createSession sweepTime createdAt sessionId scanSessions)
               !! sessionId = Some session).
  { apply cleanup_lookup. split; [apply lookup_insert_eq | exact Hsweep]. }
  rewrite Hs. rewrite bool_decide_eq_false_2 by (simpl; lia). reflexivity.
Qed.

Lemma create_then_poll_pending_witness :
  fst (pollHandler 10 10 10 (Some "s1"%string) (createSession 0 5 "s1" ∅))
  = ok Pending.
Proof.
  apply create_then_poll_pending; [discriminate | | ]; vm_compute; reflexivity.
Defined.

(** X12.  Session creation stores the session whatever it answers: also
    when the response is 500 (no base URL, or the QR renderer throws),
    the store holds the new pending session with [expiresAt] 300000 ms
    after [createdAt], and under every other id what the sweep left. *)
Theorem sessionHandler_store (sweepTime createdAt : Z) (sessionId : string)
    (baseUrl : str) (toDataURL : str -> QrOutcome)
    (scanSessions : gmap string Session) :
  let r := sessionHandler sweepTime createdAt sessionId baseUrl toDataURL
             scanSessions in
  snd r !! sessionId
  = Some {| createdAt := createdAt; expiresAt := createdAt + 300000;
            status := pending; data := None |} /\
  (forall other, other <> sessionId ->
                 snd r !! other
                 = cleanupExpiredSessions sweepTime scanSessions !! other) /\
  (sessionHttpStatus (fst r) = 200%nat \/ sessionHttpStatus (fst r) = 500%nat) /\
  (isEmpty baseUrl = true -> sessionHttpStatus (fst r) = 500%nat).
Proof.
  cbv zeta.
  assert (Hstore : snd (sessionHandler sweepTime createdAt sessionId baseUrl
                          toDataURL scanSessions)
                   = createSession sweepTime createdAt sessionId scanSessions).
  { unfold sessionHandler. destruct (isEmpty baseUrl); [reflexivity|].
    destruct (toDataURL _); reflexivity. }
  rewrite Hstore. unfold createSession. split; [apply lookup_insert_eq|].
  split; [intros other Hne; apply lookup_insert_ne; congruence|].
  unfold sessionHandler. destruct (isEmpty baseUrl).
  - simpl. auto.
  - split; [|discriminate]. destruct (toDataURL _); simpl; auto.
Qed.

Lemma sessionHandler_store_witness :
  sessionHttpStatus (fst (sessionHandler 0 0 "s1" [] (fun _ => QrImage []) ∅))
  = 500%nat.
Proof.
  apply (sessionHandler_store 0 0 "s1" [] (fun _ => QrImage []) ∅).
  reflexivity.
Defined.

(** A poll for a live session with a delivered record answers with the
    record and leaves the session as it is. *)
Lemma poll_delivered (scanSessions : gmap string Session) (sessionId : string)
    (session : Session) (record : CardRecord) (t sweepTime now pollTime : Z) :
  sessionId <> ""%string ->
  scanSessions !! sessionId = Some (attach session record) ->
  deliveredAt record = Some t ->
  sweepTime < expiresAt session -> now < expiresAt session ->
  let r := pollHandler sweepTime now pollTime (Some sessionId) scanSessions in
  fst r = ok (Ready record) /\
  snd r !! sessionId = Some (attach session record).
Proof.
  intros Hid Hs Hdel Hsweep Hnow. cbv zeta. unfold pollHandler.
  rewrite (presentId_Some _ Hid).
  assert (H : cleanupExpiredSessions sweepTime scanSessions !! sessionId
              = Some (attach session record)).
  { apply cleanup_lookup. split; [exact Hs | exact Hsweep]. }
  rewrite H. rewrite bool_decide_eq_false_2 by (simpl; lia).
  cbn [status data attach]. rewrite Hdel. cbn [fst snd]. auto.
Qed.

(** The first poll for a live session with a fresh record stamps the
    record and answers with it. *)
Lemma poll_fresh (scanSessions : gmap string Session) (sessionId : string)
    (session : Session) (record : CardRecord) (sweepTime now pollTime : Z) :
  sessionId <> ""%string ->
  scanSessions !! sessionId = Some (attach session record) ->
  deliveredAt record = None ->
  sweepTime < expiresAt session -> now < expiresAt session ->
  let r := pollHandler sweepTime now pollTime (Some sessionId) scanSessions in
  fst r = ok (Ready (delivered record pollTime)) /\
  snd r !! sessionId = Some (attach session (delivered record pollTime)).
Proof.
  intros Hid Hs Hdel Hsweep Hnow. cbv zeta. unfold pollHandler.
  rewrite (presentId_Some _ Hid).
  assert (H : cleanupExpiredSessions sweepTime scanSessions !! sessionId
              = Some (attach session record)).
  { apply cleanup_lookup. split; [exact Hs | exact Hsweep]. }
  rewrite H. rewrite bool_decide_eq_false_2 by (simpl; lia).
  cbn [status data attach]. rewrite Hdel. cbn [fst snd].
  split; [reflexivity | apply lookup_insert_eq].
Qed.

Lemma pollRun_delivered (sessionId : string) (session : Session)
    (record : CardRecord) (t : Z) (polls : list (Z * Z * Z)) :
  sessionId <> ""%string ->
  deliveredAt record = Some t ->
  Forall (beforeExpiry session) polls ->
  forall scanSessions : gmap string Session,
    scanSessions !! sessionId = Some (attach session record) ->
    fst (pollRun sessionId polls scanSessions)
    = repeat (ok (Ready record)) (length polls) /\
    snd (pollRun sessionId polls scanSessions) !! sessionId
    = Some (attach session record).
Proof.
  intros Hid Hdel Hpolls.
  induction Hpolls as [|[[sweepTime now] pollTime] polls [Hsweep Hnow] _ IH];
    intros scanSessions Hs.
  - simpl. auto.
  - cbn [pollRun length repeat fst snd].
    destruct (poll_delivered scanSessions sessionId session record t
                sweepTime now pollTime Hid Hs Hdel Hsweep Hnow) as [Hr Hm].
    cbv zeta in Hr, Hm. rewrite Hr.
    destruct (IH _ Hm) as [IH1 IH2]. rewrite IH1. auto.
Qed.

(** X13.  Scan, then poll.  A scan for a live session whose image the
    recognizer reads as a text with a card number attaches the record
    and answers with the masked number; every poll of any run of polls
    that follows, before the session lapses, delivers that record with
    the unmasked number, stamped with the time of the first of them,
    and the session keeps the stamped record. *)
Theorem scan_then_poll (buffer : Type) (runVisionOCR : buffer -> OcrOutcome)
    (scanSessions : gmap string Session) (sessionId : string)
    (session : Session) (buf : buffer) (ocrText : str) (now scanTime : Z) :
  sessionId <> ""%string ->
  scanSessions !! sessionId = Some session ->
  now < expiresAt session ->
  runVisionOCR buf = OcrText ocrText ->
  extractCardNumber ocrText <> [] ->
  let scanned := scanHandler runVisionOCR now scanTime
                   {| scanSessionId := Some sessionId; file := Some buf |}
                   scanSessions in
  fst scanned
  = ok (Scanned "Card scanned successfully"
          (maskCardNumber (extractCardNumber ocrText))
          (extractCardholderName ocrText) (extractExpiry ocrText)
          (detectCardType (extractCardNumber ocrText))) /\
  snd scanned !! sessionId
  = Some (attach session (scanRecord ocrText scanTime)) /\
  forall (sweep1 now1 time1 : Z) (rest : list (Z * Z * Z)),
    Forall (beforeExpiry session) ((sweep1, now1, time1) :: rest) ->
    let run := pollRun sessionId ((sweep1, now1, time1) :: rest) (snd scanned) in
    fst run
    = repeat (ok (Ready (delivered (scanRecord ocrText scanTime) time1)))
             (S (length rest)) /\
    snd run !! sessionId
    = Some (attach session (delivered (scanRecord ocrText scanTime) time1)).
Proof.
  intros Hid Hs Hlive Hocr Hnum. cbv zeta.
  assert (Hscan : scanHandler runVisionOCR now scanTime
                    {| scanSessionId := Some sessionId; file := Some buf |}
                    scanSessions
                  = (ok (Scanned "Card scanned successfully"
                           (maskCardNumber (extractCardNumber ocrText))
                           (extractCardholderName ocrText) (extractExpiry ocrText)
                           (detectCardType (extractCardNumber ocrText))),
                     <[sessionId := attach session (scanRecord ocrText scanTime)]>
                       scanSessions)).
  { unfold scanHandler. cbn [scanSessionId file].
    rewrite (presentId_Some _ Hid), Hs.
    rewrite bool_decide_eq_false_2 by lia. rewrite Hocr.
    destruct (extractCardNumber_shaped ocrText) as [He|[_ Hlen]]; [contradiction|].
    destruct (extractCardNumber ocrText) as [|c number] eqn:Hn; [contradiction|].
    cbn [isEmpty isEmpty']. unfold MAX_CARD_DIGITS.
    destruct (Nat.ltb_spec 16 (length (c :: number))); [lia|].
    unfold attach, scanRecord. rewrite Hn. reflexivity. }
  rewrite Hscan. cbn [fst snd]. split; [reflexivity|].
  split; [apply lookup_insert_eq|].
  intros sweep1 now1 time1 rest Hpolls.
  inversion Hpolls as [|? ? Hfirst Hrest]; subst.
  destruct Hfirst as [Hsweep1 Hnow1].
  cbn [pollRun fst snd repeat].
  destruct (poll_fresh
              (<[sessionId := attach session (scanRecord ocrText scanTime)]>
                 scanSessions)
              sessionId session (scanRecord ocrText scanTime)
              sweep1 now1 time1 Hid (lookup_insert_eq _ _ _) eq_refl
              Hsweep1 Hnow1) as [Hr Hm].
  cbv zeta in Hr, Hm. rewrite Hr.
  destruct (pollRun_delivered sessionId session
              (delivered (scanRecord ocrText scanTime) time1) time1 rest
              Hid eq_refl Hrest _ Hm) as [H1 H2].
  rewrite H1. auto.
Qed.

Lemma scan_then_poll_witness :
  fst (scanHandler (fun _ : unit => OcrText (lit "4111 1111 1111 1111"))
         1000 1001 {| scanSessionId := Some "s1"%string; file := Some tt |}
         (oneSession "s1"))
  = ok (Scanned "Card scanned successfully"
          (maskCardNumber (lit "4111111111111111"))
          (lit "III IIII IIII IIII") [] VISA)
  /\ fst (pollRun "s1" [(2000, 2000, 2001); (3000, 3000, 3001); (4000, 4000, 4001)]
            scannedStore)
     = repeat (ok (Ready (delivered (scanRecord (lit "4111 1111 1111 1111") 1001)
                            2001))) 3.
Proof.
  destruct (scan_then_poll unit
              (fun _ => OcrText (lit "4111 1111 1111 1111"))
              (oneSession "s1") "s1"
              {| createdAt := 0; expiresAt := SESSION_TTL_MS;
                 status := pending; data := None |}
              tt (lit "4111 1111 1111 1111") 1000 1001)
    as (Hscan & _ & Hpolls).
  - discriminate.
  - vm_compute. reflexivity.
  - vm_compute. reflexivity.
  - reflexivity.
  - vm_compute. discriminate.
  - split; [exact Hscan|].
    apply (Hpolls 2000 2000 2001 [(3000, 3000, 3001); (4000, 4000, 4001)]).
    repeat constructor.
Defined.

(** * Further properties of the Luhn check *)

Lemma luhnCheck_altSum (d : str) :
  Forall (fun c => isDigit c = true) d ->
  luhnCheck d = (altSum false (rev d) mod 10 =? 0).
Proof.
  intro Hd. apply List.Forall_rev in Hd.
  unfold luhnCheck. rewrite (luhn_loop _ Hd). simpl.
  pose proof (altSum_nonneg false _ Hd).
  rewrite Z.rem_mod_nonneg by lia. reflexivity.
Qed.

Lemma altSum_app (x y : str) (b : bool) :
  altSum b (x ++ y) = altSum b x + altSum (xorb b (Nat.odd (length x))) y.
Proof.
  revert b. induction x as [|c x IH]; intro b.
  - simpl. rewrite xorb_false_r. reflexivity.
  - cbn [app altSum length]. rewrite IH, Nat.odd_succ, <- Nat.negb_odd.
    destruct b, (Nat.odd (length x)); cbn [xorb negb]; lia.
Qed.

Lemma altSum_zeros (n : nat) (b : bool) : altSum b (repeat "0"%char n) = 0.
Proof.
  revert b. induction n as [|n IH]; intro b; [reflexivity|].
  cbn [repeat altSum]. rewrite IH. destruct b; reflexivity.
Qed.

Lemma digitValue_inj (a b : ascii) : digitValue a = digitValue b -> a = b.
Proof.
  unfold digitValue, code. intro H.
  assert (Hn : N_of_ascii a = N_of_ascii b) by lia.
  rewrite <- (ascii_N_embedding a), <- (ascii_N_embedding b), Hn. reflexivity.
Qed.

Lemma luhnDigit_inj (k : nat) (x y : Z) :
  0 <= x <= 9 -> 0 <= y <= 9 -> luhnDigit k x = luhnDigit k y -> x = y.
Proof.
  unfold luhnDigit. intros Hx Hy.
  destruct (Nat.odd k); [|auto].
  destruct (Z.ltb_spec 9 (2 * x)); destruct (Z.ltb_spec 9 (2 * y)); lia.
Qed.

Lemma Forall_digits_app (x y : str) :
  Forall (fun c => isDigit c = true) x ->
  Forall (fun c => isDigit c = true) y ->
  Forall (fun c => isDigit c = true) (x ++ y).
Proof. intros Hx Hy. apply Forall_app. split; assumption. Qed.

(** X14.  The Luhn check catches every single wrong digit: when a digit
    string passes, the string with one digit replaced by a different
    digit does not. *)
Theorem luhnCheck_single_digit_error (before after : str) (a b : ascii) :
  Forall (fun c => isDigit c = true) before ->
  Forall (fun c => isDigit c = true) after ->
  isDigit a = true -> isDigit b = true -> a <> b ->
  luhnCheck (before ++ a :: after) = true ->
  luhnCheck (before ++ b :: after) = false.
Proof.
  intros Hbefore Hafter Ha Hb Hne.
  rewrite !luhnCheck_altSum
    by (apply Forall_digits_app; [|constructor]; assumption).
  rewrite !rev_app_distr. cbn [rev]. rewrite <- !app_assoc. cbn [app].
  rewrite !altSum_app. cbn [altSum].
  set (k := if xorb false (Nat.odd (length (rev after))) then 1%nat else 0%nat).
  set (rest := altSum (negb _) (rev before)).
  set (front := altSum false (rev after)).
  pose proof (luhnDigit_range k a Ha) as Hra.
  pose proof (luhnDigit_range k b Hb) as Hrb.
  assert (Hdiff : luhnDigit k (digitValue a) <> luhnDigit k (digitValue b)).
  { intro Heq. apply Hne, digitValue_inj.
    apply (luhnDigit_inj k); [apply digitValue_range; assumption ..|exact Heq]. }
  intro Hvalid. apply Z.eqb_eq in Hvalid. apply Z.eqb_neq.
  intro Hvalid'.
  assert (Hd : (luhnDigit k (digitValue a) - luhnDigit k (digitValue b)) mod 10 = 0).
  { replace (luhnDigit k (digitValue a) - luhnDigit k (digitValue b))
      with ((front + (luhnDigit k (digitValue a) + rest))
            - (front + (luhnDigit k (digitValue b) + rest))) by lia.
    rewrite Zminus_mod, Hvalid, Hvalid'. reflexivity. }
  apply Z.mod_divide in Hd; [|lia]. destruct Hd as [q Hq]. lia.
Qed.

Lemma luhnCheck_single_digit_error_witness :
  luhnCheck (lit "411111111111" ++ "7"%char :: lit "111") = false.
Proof.
  apply (luhnCheck_single_digit_error (lit "411111111111") (lit "111")
           "1"%char "7"%char).
  - repeat constructor.
  - repeat constructor.
  - reflexivity.
  - reflexivity.
  - discriminate.
  - vm_compute. reflexivity.
Defined.

(** X15.  Leading zeros do not matter to the Luhn check: a digit string
    passes exactly when it passes with zeros put in front. *)
Theorem luhnCheck_leading_zeros (n : nat) (d : str) :
  Forall (fun c => isDigit c = true) d ->
  luhnCheck (repeat "0"%char n ++ d) = luhnCheck d.
Proof.
  intro Hd.
  assert (Hz : Forall (fun c => isDigit c = true) (repeat "0"%char n)).
  { apply List.Forall_forall. intros c Hc. apply repeat_spec in Hc. subst.
    reflexivity. }
  rewrite !luhnCheck_altSum by (try apply Forall_digits_app; assumption).
  rewrite rev_app_distr, altSum_app.
  rewrite <- (rev_repeat n "0"%char) at 1.
  rewrite rev_involutive, altSum_zeros, Z.add_0_r. reflexivity.
Qed.

Lemma luhnCheck_leading_zeros_witness :
  luhnCheck (repeat "0"%char 3 ++ lit "4222222222222")
  = luhnCheck (lit "4222222222222").
Proof.
  apply (luhnCheck_leading_zeros 3 (lit "4222222222222")).
  repeat constructor.
Defined.




(** * Further properties of the network detector *)

Lemma digit_cases (c : ascii) :
  isDigit c = true ->
  c = "0"%char \/ c = "1"%char \/ c = "2"%char \/ c = "3"%char \/ c = "4"%char
  \/ c = "5"%char \/ c = "6"%char \/ c = "7"%char \/ c = "8"%char \/ c = "9"%char.
Proof. each_char c; tauto. Qed.

Ltac each_digit c H :=
  destruct (digit_cases c H) as [->|[->|[->|[->|[->|[->|[->|[->|[->| ->]]]]]]]]].

Lemma detectCardType_four_digits (a b c d : ascii) (rest : str) :
  isDigit a = true -> isDigit b = true -> isDigit c = true -> isDigit d = true ->
  Forall (fun x => isDigit x = true) rest ->
  detectCardType (a :: b :: c :: d :: rest)
  = networkOf (NumberOfDigits [a; b; c; d]).
Proof.
  intros Ha Hb Hc Hd Hrest.
  assert (Hbin : digitsOnly (a :: b :: c :: d :: rest) = a :: b :: c :: d :: rest).
  { rewrite !digitsOnly_cons_digit by assumption. do 4 f_equal.
    induction Hrest as [|x rest Hx _ IH]; [reflexivity|].
    rewrite digitsOnly_cons_digit, IH by assumption. reflexivity. }
  unfold detectCardType. rewrite Hbin. clear Hbin Hrest.
  each_digit a Ha; each_digit b Hb; each_digit c Hc; each_digit d Hd;
    vm_compute; reflexivity.
Qed.

Lemma digitsOnly_idem (s : str) : digitsOnly (digitsOnly s) = digitsOnly s.
Proof.
  pose proof (digitsOnly_digits s) as H.
  induction H as [|c d Hc _ IH]; [reflexivity|].
  rewrite digitsOnly_cons_digit, IH by assumption. reflexivity.
Qed.

(** X17.  A number in the prefixes of the Discover rule, [6011] or
    [65], is classified RUPAY, whatever follows and whatever separators
    it is written with. *)
Theorem discover_prefixes_are_rupay (cardNumber rest : str) :
  digitsOnly cardNumber = lit "6011" ++ rest
  \/ digitsOnly cardNumber = lit "65" ++ rest ->
  detectCardType cardNumber = RUPAY.
Proof.
  intros [H|H]; unfold detectCardType; rewrite H; reflexivity.
Qed.

Lemma discover_prefixes_are_rupay_witness :
  detectCardType (lit "6500 0000 0000 0002") = RUPAY.
Proof.
  apply (discover_prefixes_are_rupay (lit "6500 0000 0000 0002")
           (lit "00000000000002")).
  right. reflexivity.
Defined.

(** X18.  The network is decided by the first four digits of the
    number, separators aside, as this table of number ranges: 4000-4999
    VISA; 5100-5599 and 2220-2720 MASTERCARD; 6000-6099, 6500-6599,
    8100-8299 and 5080-5089 RUPAY; 3400-3499 and 3700-3799 AMEX;
    anything else UNKNOWN. *)
Theorem detectCardType_table (cardNumber : str) (a b c d : ascii) (rest : str) :
  digitsOnly cardNumber = a :: b :: c :: d :: rest ->
  detectCardType cardNumber = networkOf (NumberOfDigits [a; b; c; d]).
Proof.
  intro Hbin.
  pose proof (digitsOnly_digits cardNumber) as Hd. rewrite Hbin in Hd.
  inversion Hd as [|? ? Ha Hd1]; subst.
  inversion Hd1 as [|? ? Hb Hd2]; subst.
  inversion Hd2 as [|? ? Hc Hd3]; subst.
  inversion Hd3 as [|? ? Hdd Hrest]; subst.
  rewrite <- (detectCardType_four_digits a b c d rest) by assumption.
  unfold detectCardType. rewrite <- Hbin, digitsOnly_idem. reflexivity.
Qed.

Lemma detectCardType_table_witness :
  detectCardType (lit "2720-9900 0000 0000") = networkOf 2720.
Proof.
  apply (detectCardType_table (lit "2720-9900 0000 0000")
           "2"%char "7"%char "2"%char "0"%char (lit "990000000000")).
  reflexivity.
Defined.

(** * Further properties of the expiry extractor *)

Lemma monthRegex_shape (month : str) :
  testAtStart monthRegex month = true ->
  exists m1 m2, month = [m1; m2] /\
    ((m1 = "0"%char /\ inRange "1" "9" m2 = true)
     \/ (m1 = "1"%char /\ inRange "0" "2" m2 = true)).
Proof.
  unfold monthRegex.
  destruct month as [|m1 [|m2 [|x rest]]];
    cbv [testAtStart matchAt alt andThen chr kw word lit list_ascii_of_string
         bump accept eos].
  - intro H; discriminate H.
  - destruct (isChar "0" m1), (isChar "1" m1); intro H; discriminate H.
  - intro H. exists m1, m2. split; [reflexivity|].
    unfold isChar in *.
    destruct (Ascii.eqb_spec "0" m1) as [<-|_].
    + destruct (inRange "1" "9" m2); [left; auto|].
      cbn in H. discriminate H.
    + destruct (Ascii.eqb_spec "1" m1) as [<-|_]; [|discriminate H].
      destruct (inRange "0" "2" m2); [right; auto | discriminate H].
  - destruct (isChar "0" m1), (isChar "1" m1);
      destruct (inRange "1" "9" m2), (inRange "0" "2" m2);
      intro H; discriminate H.
Qed.

Lemma yearRegex_shape (year : str) :
  testAtStart yearRegex year = true ->
  Forall (fun c => isDigit c = true) year /\ (2 <= length year <= 4)%nat.
Proof.
  unfold yearRegex.
  destruct year as [|a [|b [|c [|d [|e rest]]]]];
    cbv [testAtStart matchAt andThen rep chr bump accept eos pred Nat.eqb];
    repeat match goal with
           | |- context [isDigit ?x] => destruct (isDigit x) eqn:?
           end;
    try (intro H; discriminate H); intros _;
    (split; [repeat constructor; assumption | simpl; lia]).
Qed.

Lemma toExpiry_shaped (monthRaw yearRaw : str) :
  toExpiry monthRaw yearRaw <> [] -> expiryShaped (toExpiry monthRaw yearRaw).
Proof.
  unfold toExpiry.
  destruct (testAtStart monthRegex _) eqn:Hm; cbn [negb]; [|congruence].
  destruct (testAtStart yearRegex _) eqn:Hy; cbn [negb]; [|congruence].
  intros _.
  destruct (monthRegex_shape _ Hm) as (m1 & m2 & -> & Hmonth).
  destruct (yearRegex_shape _ Hy) as (Hdigits & Hlen).
  set (yearClean := normalizeDateDigits yearRaw) in *.
  exists m1, m2, (if (length yearClean =? 4)%nat then sliceLast 2 yearClean
                  else yearClean).
  split; [reflexivity|]. split; [exact Hmonth|].
  destruct (Nat.eqb_spec (length yearClean) 4) as [H4|H4].
  - split; [apply Forall_skipn_digits, Hdigits|].
    left. apply sliceLast_length. lia.
  - split; [exact Hdigits | lia].
Qed.

Lemma collectDateMatches_shaped (line : str) (dm : dateMatch) :
  In dm (collectDateMatches line) -> expiryShaped (dm_expiry dm).
Proof.
  unfold collectDateMatches. intro H. apply in_flat_map in H.
  destruct H as (m & _ & H).
  destruct (toExpiry (group 0 m) (group 1 m)) as [|c e] eqn:He; [contradiction|].
  cbn [isEmpty isEmpty'] in H. destruct H as [<-|[]]. cbn [dm_expiry].
  rewrite <- He. apply toExpiry_shaped. rewrite He. discriminate.
Qed.

Lemma lastExpiry_shaped (line : str) :
  (2 <= length (collectDateMatches line))%nat ->
  expiryShaped (lastExpiry (collectDateMatches line)).
Proof.
  intro Hlen. unfold lastExpiry.
  destruct (rev (collectDateMatches line)) as [|dm l] eqn:Hr.
  - apply (f_equal (@length _)) in Hr. rewrite length_rev in Hr.
    simpl in Hr. lia.
  - apply (collectDateMatches_shaped line). apply in_rev. rewrite Hr. left.
    reflexivity.
Qed.

Lemma pairedLine_shaped (lines : list str) (index : nat) (e : str) :
  pairedLine lines index = Some e -> expiryShaped e.
Proof.
  unfold pairedLine.
  destruct (_ && _ && (2 <=? length (collectDateMatches (nth index lines [])))%nat)
    eqn:H1.
  - intros [= <-]. apply lastExpiry_shaped.
    apply andb_prop in H1. destruct H1 as [_ H1]. apply Nat.leb_le, H1.
  - set (nextLine := if (index + 1 <? length lines)%nat
                     then nth (index + 1) lines [] else []).
    destruct (isEmpty nextLine) eqn:Hn.
    + rewrite andb_false_r. discriminate.
    + destruct (_ && _ && _ && (2 <=? length (collectDateMatches nextLine))%nat)
        eqn:H2; [|discriminate].
      intros [= <-]. apply lastExpiry_shaped.
      apply andb_prop in H2. destruct H2 as [_ H2]. apply Nat.leb_le, H2.
Qed.

Lemma expiryCandidates_shaped (lines : list str) (c : candidate) :
  In c (expiryCandidates lines) -> expiryShaped (expiry c).
Proof.
  unfold expiryCandidates. intro H. apply in_flat_map in H.
  destruct H as (il & _ & H). unfold lineCandidates in H.
  apply in_flat_map in H. destruct H as (m & _ & H).
  destruct (toExpiry (group 0 m) (group 1 m)) as [|x e] eqn:He; [contradiction|].
  cbn [isEmpty isEmpty'] in H. destruct H as [<-|[]]. cbn [expiry].
  rewrite <- He. apply toExpiry_shaped. rewrite He. discriminate.
Qed.

Lemma firstExpiry_sort_In {cmp : candidate -> candidate -> Z}
    (l : list candidate) :
  l <> [] -> exists c, In c l /\ firstExpiry (sort cmp l) = expiry c.
Proof.
  intro Hne. destruct (sort cmp l) as [|c t] eqn:Hs.
  - destruct l as [|x l]; [contradiction|].
    assert (Hin : In x (sort cmp (x :: l))) by (apply sort_In; left; reflexivity).
    rewrite Hs in Hin. contradiction.
  - exists c. split; [|reflexivity]. apply (sort_In _ cmp). rewrite Hs. left.
    reflexivity.
Qed.

(** X19.  [extractExpiry] returns the empty string or a month from 01
    to 12, a slash and a year of two or three digits: a matched year of
    four digits gives its last two, one of two or three digits stays. *)
Theorem extractExpiry_shaped (rawText : str) :
  extractExpiry rawText = [] \/ expiryShaped (extractExpiry rawText).
Proof.
  unfold extractExpiry.
  destruct (pairedExpiry (upperLines rawText)) as [e|] eqn:Hp.
  - right. unfold pairedExpiry in Hp. apply firstSome_Some in Hp.
    destruct Hp as (index & _ & Hp). eapply pairedLine_shaped, Hp.
  - destruct (expiryCandidates (upperLines rawText)) as [|c0 cands] eqn:Hc;
      [left; reflexivity|].
    cbn [isEmpty']. right.
    assert (Hne : c0 :: cands <> []) by discriminate.
    destruct (1 <? length (c0 :: cands))%nat.
    + destruct (@firstExpiry_sort_In compareExpiry _ Hne) as (c & Hin & ->).
      apply (expiryCandidates_shaped (upperLines rawText)). rewrite Hc. exact Hin.
    + destruct (@firstExpiry_sort_In compareScore _ Hne) as (c & Hin & ->).
      apply (expiryCandidates_shaped (upperLines rawText)). rewrite Hc. exact Hin.
Qed.

Lemma insertSorted_same_dates (x y : candidate) (l1 l2 : list candidate) :
  expiry x = expiry y ->
  Forall2 (fun a b => expiry a = expiry b) l1 l2 ->
  Forall2 (fun a b => expiry a = expiry b)
          (insertSorted compareExpiry x l1) (insertSorted compareExpiry y l2).
Proof.
  intros Hxy H. induction H as [|a b l1 l2 Hab Hl IH]; simpl.
  - repeat constructor. exact Hxy.
  - rewrite (compareExpiry_ignores_score x a y b Hxy Hab).
    destruct (compareExpiry y b <=? 0).
    + constructor; [exact Hxy|]. constructor; assumption.
    + constructor; [exact Hab | exact IH].
Qed.

Lemma sort_same_dates (l1 l2 : list candidate) :
  Forall2 (fun a b => expiry a = expiry b) l1 l2 ->
  Forall2 (fun a b => expiry a = expiry b)
          (sort compareExpiry l1) (sort compareExpiry l2).
Proof.
  induction 1 as [|a b l1 l2 Hab _ IH]; simpl; [constructor|].
  apply insertSorted_same_dates; assumption.
Qed.

Lemma same_dates_Forall2 (l1 l2 : list candidate) :
  map expiry l1 = map expiry l2 ->
  Forall2 (fun a b => expiry a = expiry b) l1 l2.
Proof.
  revert l2. induction l1 as [|a l1 IH]; intros [|b l2] H; try discriminate.
  - constructor.
  - injection H as Hab H. constructor; [exact Hab | apply IH, H].
Qed.

(** X20.  The proximity scores never decide the result of
    [extractExpiry]: without a paired FROM/THRU line the result is the
    first candidate in the order of the dates, latest first, and it is
    the same for any candidates that carry the same dates in the same
    order, whatever their scores and positions. *)
Theorem extractExpiry_scores_unused (rawText : str) (others : list candidate) :
  map expiry others = map expiry (expiryCandidates (upperLines rawText)) ->
  extractExpiry rawText
  = match pairedExpiry (upperLines rawText) with
    | Some e => e
    | None => firstExpiry (sort compareExpiry others)
    end.
Proof.
  intro Hsame. unfold extractExpiry.
  destruct (pairedExpiry (upperLines rawText)); [reflexivity|].
  apply same_dates_Forall2, sort_same_dates in Hsame.
  assert (Hfirst : firstExpiry (sort compareExpiry others)
                   = firstExpiry (sort compareExpiry
                                    (expiryCandidates (upperLines rawText)))).
  { destruct Hsame as [|a b l1 l2 Hab _]; [reflexivity | exact Hab]. }
  rewrite Hfirst.
  destruct (expiryCandidates (upperLines rawText)) as [|c [|c' cands]];
    reflexivity.
Qed.

Lemma extractExpiry_scores_unused_witness :
  extractExpiry (lit "FROM 03/24 x 09/26") = lit "09/26".
Proof.
  apply (extractExpiry_scores_unused (lit "FROM 03/24 x 09/26")
           [ {| expiry := lit "03/24"; score := 0; lineIndex := 0; position := 0 |};
             {| expiry := lit "09/26"; score := 0; lineIndex := 0; position := 0 |} ]).
  vm_compute. reflexivity.
Defined.

(** * Further properties of the cardholder name extractor *)

Lemma trimStart_In (s : str) (c : ascii) : In c (trimStart s) -> In c s.
Proof.
  induction s as [|x s IH]; simpl; [tauto|].
  destruct (isSpace x); [right; apply IH; assumption | tauto].
Qed.

Lemma trim_In (s : str) (c : ascii) : In c (trim s) -> In c s.
Proof.
  unfold trim. intro H. apply in_rev, trimStart_In, in_rev, trimStart_In in H.
  exact H.
Qed.

Lemma collapseSpaces_In (s : str) (c : ascii) (inRun : bool) :
  In c (collapseSpaces inRun s) -> c = " "%char \/ (In c s /\ isSpace c = false).
Proof.
  revert inRun. induction s as [|x s IH]; intro inRun; simpl; [tauto|].
  destruct (isSpace x) eqn:Hx.
  - destruct inRun.
    + intro H. destruct (IH _ H) as [->|[H1 H2]]; auto.
    + intros [<-|H]; [auto|]. destruct (IH _ H) as [->|[H1 H2]]; auto.
  - intros [<-|H]; [auto|]. destruct (IH _ H) as [->|[H1 H2]]; auto.
Qed.

(** A normalized name line holds capital letters and spaces only. *)
Lemma normalizeNameLine_chars (line : str) (c : ascii) :
  In c (normalizeNameLine line) -> c = " "%char \/ isUpperAZ c = true.
Proof.
  unfold normalizeNameLine. intro H. apply trim_In, collapseSpaces_In in H.
  destruct H as [->|[H Hs]]; [auto|]. right.
  unfold replaceClass at 1 in H. apply in_map_iff in H.
  destruct H as (x & Hx & _).
  destruct (isUpperAZ x || isSpace x) eqn:Hk; cbn [negb] in Hx; subst c.
  - rewrite Hs, orb_false_r in Hk. exact Hk.
  - discriminate Hs.
Qed.

Lemma splitAcc_chars (sep : ascii) (s cur w : str) (c : ascii) :
  In w (splitAcc sep cur s) -> In c w -> In c cur \/ In c s.
Proof.
  revert cur. induction s as [|x s IH]; intros cur Hw Hc; simpl in Hw.
  - destruct Hw as [<-|[]]. left. apply in_rev. exact Hc.
  - destruct (Ascii.eqb x sep).
    + destruct Hw as [<-|Hw]; [left; apply in_rev; exact Hc|].
      destruct (IH [] Hw Hc) as [[]|H]. right. right. exact H.
    + destruct (IH (x :: cur) Hw Hc) as [[<-|H]|H]; simpl; auto.
Qed.

Lemma wordsOf_letters (line w : str) :
  In w (wordsOf (normalizeNameLine line)) ->
  Forall (fun c => isUpperAZ c = true) w.
Proof.
  intro Hw. apply List.Forall_forall. intros c Hc.
  destruct (wordsOf_words _ _ Hw) as [_ Hns].
  unfold wordsOf, split in Hw. apply filter_In in Hw. destruct Hw as [Hw _].
  destruct (splitAcc_chars _ _ _ _ c Hw Hc) as [[]|H].
  destruct (normalizeNameLine_chars _ _ H) as [->|Hu]; [contradiction | exact Hu].
Qed.

(** A match of a one-character pattern shows a character of the class. *)
Lemma execFrom_chr (P : ascii -> bool) (s : str) :
  forall skip prev pos,
    execFrom (chr P) skip prev pos s <> [] -> exists c, In c s /\ P c = true.
Proof.
  induction s as [|x s IH]; intros skip prev pos H.
  - destruct skip; [|contradiction H; reflexivity].
    cbn in H. contradiction H. reflexivity.
  - destruct (P x) eqn:Hx; [exists x; split; [left; reflexivity | exact Hx]|].
    assert (Hs : exists skip' prev' pos',
               execFrom (chr P) skip' prev' pos' s <> []).
    { destruct skip as [|k]; cbn [execFrom] in H; [|eauto].
      unfold matchAt, chr at 1 in H. rewrite Hx in H. eauto. }
    destruct Hs as (skip' & prev' & pos' & Hs).
    destruct (IH _ _ _ Hs) as (c & Hc & HP). exists c. split; [right|]; assumption.
Qed.

Lemma test_chr (P : ascii -> bool) (s : str) :
  test (chr P) s = true -> exists c, In c s /\ P c = true.
Proof.
  unfold test, execAll. intro H. apply (execFrom_chr P s 0%nat None 0%nat).
  destruct (execFrom _ _ _ _ _); [discriminate | discriminate].
Qed.

(** What the filter lets through, word by word. *)
Lemma nameWords_shaped (line : str) (words : list str) :
  nameWords line = Some words -> Forall nameWordShaped words.
Proof.
  unfold nameWords.
  destruct (_ || _ || _); [discriminate|].
  destruct (isEmpty' _); [discriminate|].
  set (all := wordsOf (normalizeNameLine line)).
  set (ws := if has removablePrefixes (hd [] all) then tl all else all).
  assert (Hsub : forall w, In w ws -> In w all).
  { intros w. unfold ws. destruct (has removablePrefixes _); [|tauto].
    destruct all; simpl; tauto. }
  destruct ((length ws <? 2)%nat || (4 <? length ws)%nat); [discriminate|].
  destruct (existsb (fun word => (length word <? 2)%nat || _) ws) eqn:Hlen;
    [discriminate|].
  destruct (existsb (fun word => has blockedWords word) ws); [discriminate|].
  destruct (forallb _ ws) eqn:Hv; cbn [negb]; [|discriminate].
  intros [= <-]. apply List.Forall_forall. intros w Hw.
  split; [|split].
  - pose proof (existsb_false _ _ _ Hlen Hw) as H. cbv beta in H.
    apply orb_false_elim in H. destruct H as [H1 H2].
    apply Nat.ltb_ge in H1, H2. lia.
  - apply (wordsOf_letters line), Hsub, Hw.
  - rewrite forallb_forall in Hv. apply test_chr, Hv, Hw.
Qed.

Lemma splitAcc_nonempty (sep : ascii) (s cur : str) : splitAcc sep cur s <> [].
Proof.
  revert cur. induction s as [|x s IH]; intro cur; simpl; [discriminate|].
  destruct (Ascii.eqb x sep); [discriminate | apply IH].
Qed.

(** Joining the pieces of a split gives the string back. *)
Lemma join_splitAcc (sep : ascii) (s cur : str) :
  join [sep] (splitAcc sep cur s) = rev cur ++ s.
Proof.
  revert cur. induction s as [|x s IH]; intro cur; cbn [splitAcc].
  - simpl. rewrite app_nil_r. reflexivity.
  - destruct (Ascii.eqb_spec x sep) as [->|_].
    + pose proof (splitAcc_nonempty sep s []) as Hne.
      specialize (IH []).
      destruct (splitAcc sep [] s) as [|p ps]; [contradiction|].
      change (join [sep] (rev cur :: p :: ps))
        with (rev cur ++ [sep] ++ join [sep] (p :: ps)).
      rewrite IH. reflexivity.
    + rewrite IH. simpl. rewrite <- app_assoc. reflexivity.
Qed.

Lemma join_cons_length (sep : str) (p : str) (ps : list str) :
  length (join sep (p :: ps))
  = (length p + match ps with
                | [] => 0
                | _ => length sep + length (join sep ps)
                end)%nat.
Proof.
  destruct ps as [|q ps]; simpl; [lia|]. rewrite !length_app. simpl. lia.
Qed.

Lemma join_filter_length (sep : str) (ps : list str) :
  (length (join sep (List.filter (fun w => negb (isEmpty w)) ps))
   <= length (join sep ps))%nat.
Proof.
  induction ps as [|p ps IH]; [simpl; lia|].
  rewrite join_cons_length. cbn [List.filter].
  destruct p as [|c p]; cbn [isEmpty isEmpty' negb].
  - destruct ps; simpl in *; lia.
  - rewrite join_cons_length.
    destruct (List.filter _ ps) as [|q qs] eqn:Hf; [lia|].
    destruct ps as [|p' ps]; [discriminate|]. lia.
Qed.

Lemma join_tail_length (sep : str) (ws : list str) :
  (length (join sep (tl ws)) <= length (join sep ws))%nat.
Proof.
  destruct ws as [|w ws]; [simpl; lia|].
  rewrite join_cons_length. cbn [tl]. destruct ws; simpl; lia.
Qed.

Lemma nameWords_length (line : str) (words : list str) :
  nameWords line = Some words ->
  (length (join (lit " ") words) <= 40)%nat.
Proof.
  unfold nameWords.
  destruct (_ || _ || (40 <? length (normalizeNameLine line))%nat) eqn:Hlen;
    [discriminate|].
  apply orb_false_elim in Hlen. destruct Hlen as [_ Hlen].
  apply Nat.ltb_ge in Hlen.
  destruct (isEmpty' _); [discriminate|].
  set (all := wordsOf (normalizeNameLine line)).
  set (ws := if has removablePrefixes (hd [] all) then tl all else all).
  destruct ((length ws <? 2)%nat || (4 <? length ws)%nat); [discriminate|].
  destruct (existsb (fun word => (length word <? 2)%nat || _) ws); [discriminate|].
  destruct (existsb (fun word => has blockedWords word) ws); [discriminate|].
  destruct (negb _); [discriminate|].
  intros [= <-].
  assert (Hall : (length (join (lit " ") all) <= length (normalizeNameLine line))%nat).
  { unfold all, wordsOf, split. change (lit " ") with [" "%char].
    etransitivity; [apply join_filter_length|].
    rewrite join_splitAcc. simpl. lia. }
  assert (Hws : (length (join (lit " ") ws) <= length (join (lit " ") all))%nat).
  { unfold ws. destruct (has removablePrefixes _); [apply join_tail_length | lia]. }
  lia.
Qed.

(** X22.  A non-empty result of [extractCardholderName] is made of two
    to four words joined by single spaces, each word of 2 to 14 capital
    letters with a vowel among them, and it is at most 40 characters
    long. *)
Theorem extractCardholderName_shape (rawText : str) :
  extractCardholderName rawText <> [] ->
  exists words,
    extractCardholderName rawText = join (lit " ") words /\
    (2 <= length words <= 4)%nat /\
    Forall nameWordShaped words /\
    (length (extractCardholderName rawText) <= 40)%nat.
Proof.
  unfold extractCardholderName.
  set (cands := nameCandidates (upperLines rawText)).
  set (init := {| bestCandidate := []; bestScore := None |}).
  destruct (keepBest_fold cands init) as [Hsel _]. cbv zeta in Hsel.
  destruct Hsel as [->|(c & Hin & ->)]; simpl; [congruence|].
  destruct (0 <? snd c); [|congruence]. intros _.
  destruct (nameCandidates_In _ _ Hin) as (line & words & Hw & ->).
  exists words. split; [reflexivity|].
  destruct (nameWords_Some _ _ Hw) as (Hlen & _ & _).
  split; [exact Hlen|]. split; [apply (nameWords_shaped line), Hw|].
  apply (nameWords_length line), Hw.
Qed.

Lemma extractCardholderName_shape_witness :
  exists words,
    extractCardholderName (lit "mr j0hn 5mith") = join (lit " ") words /\
    (2 <= length words <= 4)%nat.
Proof.
  destruct (extractCardholderName_shape (lit "mr j0hn 5mith"))
    as (words & H1 & H2 & _).
  - vm_compute. discriminate.
  - exists words. split; assumption.
Defined.

Lemma starFrom_all (P : ascii -> bool) (s : str) (prev : option ascii) :
  Forall (fun c => P c = true) s ->
  starFrom P (eos accept) prev s = Some (length s, []).
Proof.
  intro H. revert prev. induction H as [|c s Hc _ IH]; intro prev.
  - reflexivity.
  - cbn [starFrom]. rewrite Hc, IH. reflexivity.
Qed.

Lemma join_letters (words : list str) (c : ascii) :
  Forall nameWordShaped words -> In c (join (lit " ") words) ->
  isUpperAZ c || isSpace c = true.
Proof.
  induction 1 as [|w ws Hw _ IH]; [contradiction|].
  destruct Hw as (_ & Hletters & _).
  assert (Hinw : In c w -> isUpperAZ c || isSpace c = true).
  { intro H. rewrite List.Forall_forall in Hletters. rewrite (Hletters c H).
    reflexivity. }
  destruct ws as [|w' ws]; [exact Hinw|].
  change (join (lit " ") (w :: w' :: ws))
    with (w ++ " "%char :: join (lit " ") (w' :: ws)).
  intro H. apply in_app_or in H. destruct H as [H|[<-|H]]; auto.
Qed.

(** The capital letter test of the scoring never fails. *)
Lemma upperNameRegex_always (words : list str) :
  words <> [] -> Forall nameWordShaped words ->
  testAtStart upperNameRegex (join (lit " ") words) = true.
Proof.
  intros Hne Hws.
  assert (Hall : Forall (fun c => isUpperAZ c || isSpace c = true)
                        (join (lit " ") words)).
  { apply List.Forall_forall. intros c Hc. eapply join_letters; eassumption. }
  assert (Hnonempty : join (lit " ") words <> []).
  { destruct Hws as [|w ws Hw _]; [contradiction|].
    destruct Hw as (Hlen & _). destruct w; [simpl in Hlen; lia|].
    destruct ws; discriminate. }
  destruct (join (lit " ") words) as [|c s]; [contradiction|].
  inversion Hall as [|? ? Hc Hs]; subst.
  unfold testAtStart, matchAt, upperNameRegex, andThen, star, chr.
  rewrite Hc, (starFrom_all _ s (Some c) Hs). reflexivity.
Qed.

(** A candidate of two or three words scores at least 2. *)
Lemma nameScore_short_name (ctx : nameContext) (index : nat) (words : list str) :
  (2 <= length words <= 3)%nat -> Forall nameWordShaped words ->
  2 <= nameScore ctx index words.
Proof.
  intros Hlen Hws. unfold nameScore.
  assert (Hne : words <> []) by (destruct words; [simpl in Hlen; lia | discriminate]).
  rewrite (upperNameRegex_always words Hne Hws).
  replace ((length words =? 2)%nat || (length words =? 3)%nat) with true
    by (destruct (Nat.eqb_spec (length words) 2), (Nat.eqb_spec (length words) 3);
        simpl; lia || reflexivity).
  replace (length words =? 4)%nat with false
    by (symmetry; apply Nat.eqb_neq; lia).
  cbv zeta.
  repeat match goal with
         | |- context [if ?b then _ else _] => destruct b
         end; lia.
Qed.

Lemma nameCandidates_In_score (lines : list str) (c : str * Z) :
  In c (nameCandidates lines) ->
  exists index line words,
    nameWords line = Some words /\
    c = (join (lit " ") words, nameScore (scanContext lines) index words).
Proof.
  unfold nameCandidates. intro H. apply in_flat_map in H.
  destruct H as ([index line] & _ & H). simpl in H.
  destruct (nameWords line) as [words|] eqn:Hw; [|contradiction].
  destruct H as [<-|[]]. exists index, line, words. auto.
Qed.

(** X23.  Only names of four words can lose on the score: when some
    line gives a candidate of two or three words, the result of
    [extractCardholderName] is not empty. *)
Theorem extractCardholderName_short_name (rawText : str) (c : str * Z) :
  In c (nameCandidates (upperLines rawText)) ->
  (length (wordsOf (fst c)) <= 3)%nat ->
  extractCardholderName rawText <> [].
Proof.
  intros Hin Hshort.
  assert (Hscore : 2 <= snd c).
  { destruct (nameCandidates_In_score _ _ Hin) as (index & line & words & Hw & ->).
    cbn [fst snd] in *.
    destruct (nameWords_Some _ _ Hw) as (Hlen & _ & Hshape).
    rewrite wordsOf_join in Hshort;
      [|destruct words; simpl in Hlen; [lia|discriminate]|exact Hshape].
    apply nameScore_short_name; [lia | apply (nameWords_shaped line), Hw]. }
  unfold extractCardholderName.
  set (cands := nameCandidates (upperLines rawText)) in *.
  set (init := {| bestCandidate := []; bestScore := None |}).
  destruct (keepBest_fold cands init) as [Hsel Hmax]. cbv zeta in *.
  destruct (Hmax c Hin) as (sc & Hsc & Hle). rewrite Hsc.
  destruct (Z.ltb_spec 0 sc); [|lia].
  destruct Hsel as [Heq|(c' & Hin' & Heq)]; rewrite Heq in Hsc |- *.
  - discriminate.
  - cbn [bestCandidate].
    destruct (nameCandidates_In _ _ Hin') as (line & words & Hw & ->).
    destruct (nameWords_Some _ _ Hw) as (Hlen & _ & Hshape).
    destruct words as [|w [|w' ws]]; try (simpl in Hlen; lia).
    inversion Hshape as [|? ? [Hw0 _] _]; subst.
    destruct w; [contradiction|]. discriminate.
Qed.

Lemma extractCardholderName_short_name_witness :
  extractCardholderName (lit "AAA BBBA
4222222222222") <> [].
Proof.
  apply (extractCardholderName_short_name (lit "AAA BBBA
4222222222222") (lit "AAA BBBA", 5)).
  - vm_compute. left. reflexivity.
  - vm_compute. lia.
Defined.

Lemma keepBest_stays (l : list (str * Z)) (name : str) (sc : Z) :
  (forall x, In x l -> snd x <= sc) ->
  fold_left keepBest l {| bestCandidate := name; bestScore := Some sc |}
  = {| bestCandidate := name; bestScore := Some sc |}.
Proof.
  induction l as [|x l IH]; intro H; [reflexivity|].
  cbn [fold_left]. unfold keepBest at 2, betterThan. cbn [bestScore].
  destruct (Z.ltb_spec sc (snd x)) as [Hlt|_].
  - specialize (H x (or_introl eq_refl)). lia.
  - apply IH. intros y Hy. apply H. right. exact Hy.
Qed.

Lemma keepBest_below (l : list (str * Z)) (sc : Z) (b : best) :
  (forall x, In x l -> snd x < sc) ->
  betterThan sc (bestScore b) = true ->
  betterThan sc (bestScore (fold_left keepBest l b)) = true.
Proof.
  revert b. induction l as [|x l IH]; intros b H Hb; [exact Hb|].
  cbn [fold_left]. apply IH; [intros y Hy; apply H; right; exact Hy|].
  unfold keepBest. destruct (betterThan (snd x) (bestScore b)); [|exact Hb].
  cbn [bestScore betterThan]. apply Z.ltb_lt, H. left. reflexivity.
Qed.

(** X24.  Among the candidates the highest score wins, and of several
    candidates with the highest score the one of the earliest line:
    the result is the candidate that scores above all candidates before
    it and no less than all candidates behind it, when its score is
    positive. *)
Theorem extractCardholderName_first_best (rawText : str)
    (earlier later : list (str * Z)) (c : str * Z) :
  nameCandidates (upperLines rawText) = earlier ++ c :: later ->
  (forall x, In x earlier -> snd x < snd c) ->
  (forall x, In x later -> snd x <= snd c) ->
  0 < snd c ->
  extractCardholderName rawText = fst c.
Proof.
  intros Hc Hearlier Hlater Hpos. unfold extractCardholderName.
  rewrite Hc, fold_left_app. cbn [fold_left].
  set (b := fold_left keepBest earlier _).
  assert (Hb : betterThan (snd c) (bestScore b) = true).
  { apply keepBest_below; [exact Hearlier | reflexivity]. }
  assert (Hk : keepBest b c = {| bestCandidate := fst c; bestScore := Some (snd c) |}).
  { unfold keepBest. rewrite Hb. reflexivity. }
  rewrite Hk, keepBest_stays by exact Hlater.
  cbn [bestScore bestCandidate].
  destruct (Z.ltb_spec 0 (snd c)); [reflexivity | lia].
Qed.

Lemma extractCardholderName_first_best_witness :
  extractCardholderName (lit "JOHN SMITH
MARY JONES") = lit "JOHN SMITH".
Proof.
  apply (extractCardholderName_first_best (lit "JOHN SMITH
MARY JONES") [] [(lit "MARY JONES", 10)] (lit "JOHN SMITH", 10)).
  - vm_compute. reflexivity.
  - intros x [].
  - intros x [<-|[]]. simpl. lia.
  - simpl. lia.
Defined.

(** * The extractors and letter case *)

Lemma upperChar_idem (c : ascii) : upperChar (upperChar c) = upperChar c.
Proof. each_char c. Qed.

Lemma upperLines_upper (rawText : str) :
  upperLines (toUpperCase rawText) = upperLines rawText.
Proof.
  unfold upperLines, toUpperCase. rewrite map_map.
  rewrite (map_ext _ upperChar upperChar_idem). reflexivity.
Qed.

(** X21.  The expiry and the name extractors read the upper-case text
    only: a text and its upper-case form give the same expiry and the
    same name. *)
Theorem extractors_ignore_case (rawText : str) :
  extractExpiry (toUpperCase rawText) = extractExpiry rawText /\
  extractCardholderName (toUpperCase rawText) = extractCardholderName rawText.
Proof.
  unfold extractExpiry, extractCardholderName.
  rewrite upperLines_upper. split; reflexivity.
Qed.

(** * Further properties of the desktop page *)

Lemma digit_any (c : ascii) : isDigit c = true -> isAnyChar c = true.
Proof. each_char c. Qed.

Lemma digit_not_space (c : ascii) : isDigit c = true -> isSpace c = false.
Proof. each_char c. Qed.

Lemma fourChars_match (a b c e : ascii) (rest : str) (prev : option ascii) :
  isAnyChar a = true -> isAnyChar b = true -> isAnyChar c = true ->
  isAnyChar e = true ->
  matchAt fourCharsRegex prev (a :: b :: c :: e :: rest) = Some (4%nat, [[a; b; c; e]]).
Proof.
  intros Ha Hb Hc He.
  unfold matchAt, fourCharsRegex, cap. cbn [rep pred]. unfold chr.
  rewrite Ha, Hb, Hc, He. cbn [accept bump length].
  replace (S (S (S (S (length rest)))) - length rest)%nat with 4%nat by lia.
  reflexivity.
Qed.

Lemma fourChars_short (s : str) (prev : option ascii) :
  (length s < 4)%nat -> matchAt fourCharsRegex prev s = None.
Proof.
  intro H. unfold matchAt, fourCharsRegex, cap. cbn [rep pred]. unfold chr.
  destruct s as [|a [|b [|c [|e rest]]]]; try (simpl in H; lia);
    cbn [Nat.eqb];
    repeat match goal with
           | |- context [if ?b then _ else _] => destruct b
           end; reflexivity.
Qed.

(** The replacement puts a space behind every full group of four. *)
Lemma replaceFrom_spaced (fuel : nat) :
  forall (d : str) (prev : option ascii) (pos : nat),
    (length d <= 4 * fuel)%nat ->
    Forall (fun c => isDigit c = true) d ->
    replaceFrom fourCharsRegex (fun m => group 0 m ++ lit " ") 0 prev pos d
    = spaced fuel d.
Proof.
  induction fuel as [|fuel IH]; intros d prev pos Hlen Hd.
  - destruct d; [reflexivity | simpl in Hlen; lia].
  - destruct d as [|a [|b [|c [|e rest]]]];
      try (cbn [replaceFrom spaced];
           rewrite ?fourChars_short by (simpl; lia); reflexivity).
    inversion Hd as [|? ? Ha Hd1]; subst.
    inversion Hd1 as [|? ? Hb Hd2]; subst.
    inversion Hd2 as [|? ? Hc Hd3]; subst.
    inversion Hd3 as [|? ? He Hrest]; subst.
    cbn [replaceFrom spaced].
    rewrite fourChars_match by (apply digit_any; assumption).
    cbn [replaceFrom group m_groups nth app lit list_ascii_of_string].
    rewrite IH by (assumption || simpl in Hlen; lia).
    reflexivity.
Qed.

Lemma trimStart_digit (a : ascii) (s : str) :
  isDigit a = true -> trimStart (a :: s) = a :: s.
Proof. intro H. cbn [trimStart]. rewrite (digit_not_space a H). reflexivity. Qed.

Lemma trimStart_space (s : str) : trimStart (" "%char :: s) = trimStart s.
Proof. reflexivity. Qed.

Ltac digits_known :=
  repeat match goal with
         | H : Forall _ (_ :: _) |- _ => inversion H; subst; clear H
         end.

Ltac trim_digits :=
  unfold trim;
  repeat (first [ rewrite trimStart_space
                | rewrite trimStart_digit by assumption
                | progress cbn [rev app] ]).

(** The two facts of the format, by the number of digits. *)
Lemma format_groups (d : str) :
  Forall (fun c => isDigit c = true) d -> (length d <= 16)%nat ->
  trim (spaced 4 d) = join (lit " ") (groupsOfFour 4 d)
  /\ digitsOnly (join (lit " ") (groupsOfFour 4 d)) = d
  /\ (length (join (lit " ") (groupsOfFour 4 d)) <= 19)%nat.
Proof.
  intros Hd Hlen.
  destruct d as [|a1 [|a2 [|a3 [|a4 [|a5 [|a6 [|a7 [|a8 [|a9 [|a10 [|a11 [|a12 [|a13 [|a14 [|a15 [|a16 [|a17 rest]]]]]]]]]]]]]]]]];
    try (simpl in Hlen; lia); digits_known;
    (split; [|split];
     [ cbn [spaced]; trim_digits; reflexivity
     | cbn [groupsOfFour firstn skipn join lit list_ascii_of_string app];
       repeat (first [ rewrite digitsOnly_cons_digit by assumption
                     | rewrite digitsOnly_cons_other by reflexivity ]);
       reflexivity
     | simpl; lia ]).
Qed.

Lemma normalizeCardNumber_digits (value : str) :
  Forall (fun c => isDigit c = true) (normalizeCardNumber value)
  /\ (length (normalizeCardNumber value) <= 16)%nat.
Proof.
  unfold normalizeCardNumber. split.
  - apply Forall_firstn_digits, digitsOnly_digits.
  - rewrite length_firstn. lia.
Qed.

Lemma normalizeCardNumber_fixed (d : str) :
  Forall (fun c => isDigit c = true) d -> (length d <= 16)%nat ->
  normalizeCardNumber d = d.
Proof.
  intros Hd Hlen. unfold normalizeCardNumber.
  assert (Hid : digitsOnly d = d).
  { induction Hd as [|c d Hc _ IH]; [reflexivity|].
    rewrite digitsOnly_cons_digit by assumption.
    rewrite IH by (simpl in Hlen; lia). reflexivity. }
  rewrite Hid. apply List.firstn_all2. exact Hlen.
Qed.

Lemma formatCardNumber_join (number : str) :
  formatCardNumber number
  = join (lit " ") (groupsOfFour 4 (normalizeCardNumber number)).
Proof.
  destruct (normalizeCardNumber_digits number) as [Hd Hlen].
  unfold formatCardNumber, replaceAll.
  rewrite (replaceFrom_spaced 4) by (assumption || lia).
  apply (format_groups _ Hd Hlen).
Qed.

(** X25.  [formatCardNumber] keeps the first 16 digits of its input and
    shows them in groups of four with one space between the groups,
    19 characters at most. *)
Theorem formatCardNumber_groups (number : str) :
  formatCardNumber number
  = join (lit " ") (groupsOfFour 4 (firstn 16 (digitsOnly number)))
  /\ (length (formatCardNumber number) <= 19)%nat.
Proof.
  rewrite formatCardNumber_join.
  destruct (normalizeCardNumber_digits number) as [Hd Hlen].
  split; [reflexivity | apply (format_groups _ Hd Hlen)].
Qed.

(** X26.  Formatting is stable: the formatted number holds the same
    digits as the input, cut at 16, and formatting it again changes
    nothing, so the input handler can reformat the field at every key
    stroke. *)
Theorem formatCardNumber_stable (number : str) :
  normalizeCardNumber (formatCardNumber number) = normalizeCardNumber number
  /\ formatCardNumber (formatCardNumber number) = formatCardNumber number.
Proof.
  destruct (normalizeCardNumber_digits number) as [Hd Hlen].
  assert (H : normalizeCardNumber (formatCardNumber number)
              = normalizeCardNumber number).
  { rewrite formatCardNumber_join. unfold normalizeCardNumber at 1.
    destruct (format_groups _ Hd Hlen) as (_ & -> & _).
    apply List.firstn_all2. exact Hlen. }
  split; [exact H|].
  rewrite (formatCardNumber_join (formatCardNumber number)), H.
  symmetry. apply formatCardNumber_join.
Qed.

(** X27.  The desktop page shows the whole number that the server
    extracted: for a record of a successful scan, delivered or not, the
    card number field holds the extracted digits in groups of four, and
    its digits are the extracted number. *)
Theorem displayNumber_scanned (ocrText : str) (scanTime pollTime : Z) :
  extractCardNumber ocrText <> [] ->
  displayNumber (scanRecord ocrText scanTime)
  = join (lit " ") (groupsOfFour 4 (extractCardNumber ocrText)) /\
  displayNumber (delivered (scanRecord ocrText scanTime) pollTime)
  = displayNumber (scanRecord ocrText scanTime) /\
  digitsOnly (displayNumber (scanRecord ocrText scanTime))
  = extractCardNumber ocrText.
Proof.
  intro Hn.
  destruct (extractCardNumber_shaped ocrText) as [He|[Hd Hlen]]; [contradiction|].
  assert (Hlen' : (length (extractCardNumber ocrText) <= 16)%nat) by lia.
  assert (Hdisp : displayNumber (scanRecord ocrText scanTime)
                  = join (lit " ") (groupsOfFour 4 (extractCardNumber ocrText))).
  { unfold displayNumber, scanRecord. cbn [cardNumber maskedCardNumber].
    rewrite (normalizeCardNumber_fixed _ Hd Hlen').
    destruct (extractCardNumber ocrText) as [|c n] eqn:Hc; [contradiction|].
    cbn [isEmpty isEmpty']. rewrite formatCardNumber_join.
    rewrite (normalizeCardNumber_fixed _ Hd Hlen'). reflexivity. }
  split; [exact Hdisp|]. split; [reflexivity|].
  rewrite Hdisp. apply (format_groups _ Hd Hlen').
Qed.

Lemma displayNumber_scanned_witness :
  displayNumber (scanRecord (lit "4111-1111-1111-1111") 0)
  = lit "4111 1111 1111 1111".
Proof.
  refine (eq_trans (proj1 (displayNumber_scanned (lit "4111-1111-1111-1111") 0 0 _)) _).
  - vm_compute. discriminate.
  - vm_compute. reflexivity.
Defined.
